(** * pychat client SDK ([addons/pychat/chatapi.py]): request signing,
      session state and the heartbeat loop.

    The Python class [ChatAPI] is embedded shallowly: text is a list of
    Unicode code points, server replies are JSON values, methods are
    computations in a state-and-exception monad over a [World] that holds
    the instance, the random source, the server's replies and a log of
    the calls that leave the instance. *)

From Stdlib Require Import String Ascii Floats ZArith List Bool Lia.
Import ListNotations.
Local Open Scope Z_scope.

Set Warnings "-register-all".

(* ================================================================== *)
(** ** Python text *)

(** A Python [str]: a sequence of code points. *)
Definition pystr := list Z.

Definition code_of_ascii (c : ascii) : Z := Z.of_N (N_of_ascii c).

(** A literal of the source, written as a Rocq string of ASCII characters. *)
Fixpoint lit (s : string) : pystr :=
  match s with
  | EmptyString => []
  | String c r => code_of_ascii c :: lit r
  end.

Module Text.

(** What a [str] can hold: code points up to U+10FFFF. *)
Definition is_code_point (c : Z) : bool := (0 <=? c) && (c <=? 0x10FFFF).

Definition is_surrogate (c : Z) : bool := (0xD800 <=? c) && (c <=? 0xDFFF).

(** [str.encode()] on one code point: strict UTF-8, which refuses the
    surrogates. *)
Definition encode_point (c : Z) : option (list Z) :=
  if negb (is_code_point c) then None
  else if c <? 0x80 then Some [c]
  else if c <? 0x800 then
    Some [Z.lor 0xC0 (Z.shiftr c 6); Z.lor 0x80 (Z.land c 0x3F)]
  else if is_surrogate c then None
  else if c <? 0x10000 then
    Some [Z.lor 0xE0 (Z.shiftr c 12);
          Z.lor 0x80 (Z.land (Z.shiftr c 6) 0x3F);
          Z.lor 0x80 (Z.land c 0x3F)]
  else
    Some [Z.lor 0xF0 (Z.shiftr c 18);
          Z.lor 0x80 (Z.land (Z.shiftr c 12) 0x3F);
          Z.lor 0x80 (Z.land (Z.shiftr c 6) 0x3F);
          Z.lor 0x80 (Z.land c 0x3F)].

(** [s.encode()]: [None] stands for [UnicodeEncodeError]. *)
Fixpoint encode (s : pystr) : option (list Z) :=
  match s with
  | [] => Some []
  | c :: r =>
      match encode_point c, encode r with
      | Some b, Some bs => Some (b ++ bs)
      | _, _ => None
      end
  end.

(** Text that [encode] accepts. *)
Definition encodable (s : pystr) : bool :=
  forallb (fun c => is_code_point c && negb (is_surrogate c)) s.

(** [str(n)] for an [int]. *)
Definition digit (d : Z) : Z := 48 + d.

Fixpoint digits (fuel : nat) (n : Z) (acc : pystr) : pystr :=
  match fuel with
  | O => acc
  | S f =>
      if n <? 10 then digit n :: acc
      else digits f (n / 10) (digit (n mod 10) :: acc)
  end.

Definition str_of_int (n : Z) : pystr :=
  if n <? 0 then 45 :: digits (S (Z.to_nat (- n))) (- n) []
  else digits (S (Z.to_nat n)) n [].

(** [int(s)] on a plain run of decimal digits. *)
Definition int_of_digits (s : pystr) : Z :=
  fold_left (fun a c => 10 * a + (c - 48)) s 0.

Definition is_digit (c : Z) : bool := (48 <=? c) && (c <=? 57).

End Text.

(* ================================================================== *)
(** ** [hashlib.sha256]: SHA-256 over a list of bytes (FIPS 180-4) *)

Module Sha256.

Definition w32 (x : Z) : Z := x mod 2 ^ 32.
Definition add32 (x y : Z) : Z := w32 (x + y).
Definition rotr (n x : Z) : Z :=
  Z.lor (Z.shiftr x n) (w32 (Z.shiftl x (32 - n))).
Definition not32 (x : Z) : Z := Z.lxor x 0xFFFFFFFF.

Definition Ch (x y z : Z) := Z.lxor (Z.land x y) (Z.land (not32 x) z).
Definition Maj (x y z : Z) :=
  Z.lxor (Z.lxor (Z.land x y) (Z.land x z)) (Z.land y z).
Definition Sigma0 x := Z.lxor (Z.lxor (rotr 2 x) (rotr 13 x)) (rotr 22 x).
Definition Sigma1 x := Z.lxor (Z.lxor (rotr 6 x) (rotr 11 x)) (rotr 25 x).
Definition sigma0 x := Z.lxor (Z.lxor (rotr 7 x) (rotr 18 x)) (Z.shiftr x 3).
Definition sigma1 x := Z.lxor (Z.lxor (rotr 17 x) (rotr 19 x)) (Z.shiftr x 10).

Definition round_constants : list Z :=
  0x428A2F98 :: 0x71374491 :: 0xB5C0FBCF :: 0xE9B5DBA5 ::
  0x3956C25B :: 0x59F111F1 :: 0x923F82A4 :: 0xAB1C5ED5 ::
  0xD807AA98 :: 0x12835B01 :: 0x243185BE :: 0x550C7DC3 ::
  0x72BE5D74 :: 0x80DEB1FE :: 0x9BDC06A7 :: 0xC19BF174 ::
  0xE49B69C1 :: 0xEFBE4786 :: 0x0FC19DC6 :: 0x240CA1CC ::
  0x2DE92C6F :: 0x4A7484AA :: 0x5CB0A9DC :: 0x76F988DA ::
  0x983E5152 :: 0xA831C66D :: 0xB00327C8 :: 0xBF597FC7 ::
  0xC6E00BF3 :: 0xD5A79147 :: 0x06CA6351 :: 0x14292967 ::
  0x27B70A85 :: 0x2E1B2138 :: 0x4D2C6DFC :: 0x53380D13 ::
  0x650A7354 :: 0x766A0ABB :: 0x81C2C92E :: 0x92722C85 ::
  0xA2BFE8A1 :: 0xA81A664B :: 0xC24B8B70 :: 0xC76C51A3 ::
  0xD192E819 :: 0xD6990624 :: 0xF40E3585 :: 0x106AA070 ::
  0x19A4C116 :: 0x1E376C08 :: 0x2748774C :: 0x34B0BCB5 ::
  0x391C0CB3 :: 0x4ED8AA4A :: 0x5B9CCA4F :: 0x682E6FF3 ::
  0x748F82EE :: 0x78A5636F :: 0x84C87814 :: 0x8CC70208 ::
  0x90BEFFFA :: 0xA4506CEB :: 0xBEF9A3F7 :: 0xC67178F2 :: nil.

Definition initial_hash : list Z :=
  0x6A09E667 :: 0xBB67AE85 :: 0x3C6EF372 :: 0xA54FF53A ::
  0x510E527F :: 0x9B05688C :: 0x1F83D9AB :: 0x5BE0CD19 :: nil.

(** Big-endian bytes of an integer, [n] of them. *)
Fixpoint be_bytes (n : nat) (x : Z) : list Z :=
  match n with
  | O => []
  | S k => Z.shiftr x (8 * Z.of_nat k) mod 256 :: be_bytes k x
  end.

Definition be_word (bs : list Z) : Z :=
  fold_left (fun a b => 256 * a + b) bs 0.

(** Padding: a one bit, zeros up to 56 mod 64, the bit length on 8 bytes. *)
Definition pad (msg : list Z) : list Z :=
  let len := Z.of_nat (length msg) in
  let zeros := Z.to_nat ((55 - len) mod 64) in
  msg ++ 0x80 :: repeat 0 zeros ++ be_bytes 8 (8 * len).

Fixpoint words (n : nat) (bs : list Z) : list Z :=
  match n with
  | O => []
  | S k => be_word (firstn 4 bs) :: words k (skipn 4 bs)
  end.

(** The message schedule, newest word first. *)
Fixpoint extend (n : nat) (rev_w : list Z) : list Z :=
  match n with
  | O => rev_w
  | S k =>
      let at_ i := nth i rev_w 0 in
      let wt := add32 (add32 (sigma1 (at_ 1%nat)) (at_ 6%nat))
                      (add32 (sigma0 (at_ 14%nat)) (at_ 15%nat)) in
      extend k (wt :: rev_w)
  end.

Definition schedule (block : list Z) : list Z :=
  rev (extend 48 (rev (words 16 block))).

Record regs := Regs { ra : Z; rb : Z; rc : Z; rd : Z;
                      re : Z; rf : Z; rg : Z; rh : Z }.

Definition round (r : regs) (kw : Z * Z) : regs :=
  let (k, w) := kw in
  let t1 := add32 (add32 (add32 (rh r) (Sigma1 (re r)))
                         (add32 (Ch (re r) (rf r) (rg r)) k)) w in
  let t2 := add32 (Sigma0 (ra r)) (Maj (ra r) (rb r) (rc r)) in
  Regs (add32 t1 t2) (ra r) (rb r) (rc r) (add32 (rd r) t1) (re r) (rf r) (rg r).

Definition regs_of (h : list Z) : regs :=
  let at_ i := nth i h 0 in
  Regs (at_ 0%nat) (at_ 1%nat) (at_ 2%nat) (at_ 3%nat)
       (at_ 4%nat) (at_ 5%nat) (at_ 6%nat) (at_ 7%nat).

Definition list_of (r : regs) : list Z :=
  [ra r; rb r; rc r; rd r; re r; rf r; rg r; rh r].

Definition compress (h : list Z) (block : list Z) : list Z :=
  let r := fold_left round (combine round_constants (schedule block)) (regs_of h) in
  map (fun p => add32 (fst p) (snd p)) (combine h (list_of r)).

Fixpoint blocks (n : nat) (h : list Z) (bs : list Z) : list Z :=
  match n with
  | O => h
  | S k => blocks k (compress h (firstn 64 bs)) (skipn 64 bs)
  end.

(** [hashlib.sha256(msg).digest()]: 32 bytes. *)
Definition digest (msg : list Z) : list Z :=
  let p := pad msg in
  flat_map (be_bytes 4) (blocks (length p / 64) initial_hash p).

Definition hex_digit (d : Z) : Z := if d <? 10 then 48 + d else 87 + d.

(** [.hexdigest()]: two lowercase hexadecimal digits per byte. *)
Definition hex (bs : list Z) : pystr :=
  flat_map (fun b => [hex_digit (b / 16); hex_digit (b mod 16)]) bs.

Definition hexdigest (msg : list Z) : pystr := hex (digest msg).

End Sha256.

(* ================================================================== *)
(** ** Values, exceptions and the instance *)

Fixpoint str_eqb (a b : pystr) : bool :=
  match a, b with
  | [], [] => true
  | x :: a', y :: b' => (x =? y) && str_eqb a' b'
  | _, _ => false
  end.

(** What [json.loads] returns. *)
Inductive json :=
| JNull
| JBool (b : bool)
| JInt (n : Z)
| JFloat (x : float)
| JStr (s : pystr)
| JList (l : list json)
| JDict (kvs : list (pystr * json)).

(** The exceptions the module can let escape. [URLError] stands for every
    failure of [urlopen], of reading the body and of decoding it;
    [OverflowError] and [OSError] come from [time.sleep]. *)
Inductive exn :=
| TypeError
| KeyError (key : pystr)
| ValueError
| UnicodeEncodeError
| OverflowError
| OSError
| URLError.

Inductive outcome (A : Type) :=
| Ok (a : A)
| Raise (e : exn).
Arguments Ok {A} a.
Arguments Raise {A} e.

(** [d.get(k)] on the pairs of a dict. *)
Fixpoint lookup (k : pystr) (kvs : list (pystr * json)) : option json :=
  match kvs with
  | [] => None
  | (k', v) :: r => if str_eqb k k' then Some v else lookup k r
  end.

(** [v[k]] with a string key. *)
Definition getitem (v : json) (k : pystr) : outcome json :=
  match v with
  | JDict kvs =>
      match lookup k kvs with
      | Some x => Ok x
      | None => Raise (KeyError k)
      end
  | _ => Raise TypeError
  end.

(** [v == 0]. *)
Definition eq_zero (v : json) : bool :=
  match v with
  | JInt n => n =? 0
  | JBool b => negb b
  | JFloat x => PrimFloat.eqb x PrimFloat.zero
  | _ => false
  end.

Record ErrorRecord := { err_no : json; err_info : json }.

(** The attributes of a [ChatAPI] object. [app_key] is [None] when neither
    the argument nor the environment gave one; [session] holds whatever
    the server sent. *)
Record ChatAPI := {
  server_ip : pystr;
  port : Z;
  app_id : pystr;
  app_key : option pystr;
  connected : bool;
  username : pystr;
  session : json;
  exception_stack : list ErrorRecord
}.

(** What a call does outside the object, in order. [Sign] records a call
    of [_get_sign] with its arguments. *)
Inductive event :=
| Sign (args : list json)
| Request (url : pystr) (data : list (pystr * json))
| Warning (no info : json)
| ThreadStart (heartbeat_interval : Z)
| Sleep (seconds : Z).

Record World := {
  self : ChatAPI;
  entropy : nat -> Z;        (* the random source, one draw per index *)
  draws : nat;
  replies : nat -> outcome json;   (* what the server answers, per request *)
  sent : nat;
  clock : nat -> Z -> bool;  (* whether the platform's clock takes a sleep
                                of that many seconds, per call of sleep *)
  naps : nat;
  log : list event
}.

(** Updates of the world: one more draw, one more reply used, more log,
    another state of the object. *)
Definition drew (w : World) : World :=
  {| self := self w; entropy := entropy w; draws := S (draws w);
     replies := replies w; sent := sent w;
     clock := clock w; naps := naps w; log := log w |}.
Definition answered (w : World) : World :=
  {| self := self w; entropy := entropy w; draws := draws w;
     replies := replies w; sent := S (sent w);
     clock := clock w; naps := naps w; log := log w |}.
Definition napped (w : World) : World :=
  {| self := self w; entropy := entropy w; draws := draws w;
     replies := replies w; sent := sent w;
     clock := clock w; naps := S (naps w); log := log w |}.
Definition logged (es : list event) (w : World) : World :=
  {| self := self w; entropy := entropy w; draws := draws w;
     replies := replies w; sent := sent w;
     clock := clock w; naps := naps w; log := log w ++ es |}.
Definition with_self (o : ChatAPI) (w : World) : World :=
  {| self := o; entropy := entropy w; draws := draws w;
     replies := replies w; sent := sent w;
     clock := clock w; naps := naps w; log := log w |}.

(* ------------------------------------------------------------------ *)
(** *** The monad of methods *)

Definition M (A : Type) := World -> outcome A * World.

Definition ret {A} (a : A) : M A := fun w => (Ok a, w).
Definition raise {A} (e : exn) : M A := fun w => (Raise e, w).
Definition bind {A B} (m : M A) (k : A -> M B) : M B :=
  fun w => match m w with
           | (Ok a, w') => k a w'
           | (Raise e, w') => (Raise e, w')
           end.

Notation "x <- m ;; k" := (bind m (fun x => k))
  (at level 61, m at next level, right associativity).
Notation "m ;; k" := (bind m (fun _ => k))
  (at level 61, right associativity).

Definition lift {A} (o : outcome A) : M A := fun w => (o, w).
Definition this : M ChatAPI := fun w => (Ok (self w), w).
Definition assign (f : ChatAPI -> ChatAPI) : M unit :=
  fun w => (Ok tt, with_self (f (self w)) w).
Definition emit (e : event) : M unit :=
  fun w => (Ok tt, logged [e] w).

Definition set_connected (b : bool) (o : ChatAPI) : ChatAPI :=
  {| server_ip := server_ip o; port := port o; app_id := app_id o;
     app_key := app_key o; connected := b; username := username o;
     session := session o; exception_stack := exception_stack o |}.
Definition set_username (u : pystr) (o : ChatAPI) : ChatAPI :=
  {| server_ip := server_ip o; port := port o; app_id := app_id o;
     app_key := app_key o; connected := connected o; username := u;
     session := session o; exception_stack := exception_stack o |}.
Definition set_session (s : json) (o : ChatAPI) : ChatAPI :=
  {| server_ip := server_ip o; port := port o; app_id := app_id o;
     app_key := app_key o; connected := connected o; username := username o;
     session := s; exception_stack := exception_stack o |}.
Definition push_exception (r : ErrorRecord) (o : ChatAPI) : ChatAPI :=
  {| server_ip := server_ip o; port := port o; app_id := app_id o;
     app_key := app_key o; connected := connected o; username := username o;
     session := session o; exception_stack := exception_stack o ++ [r] |}.

(** [random.randint(a, b)]: [a] plus a draw below [b - a + 1]. *)
Definition randint (a b : Z) : M Z :=
  fun w =>
    if b - a + 1 <=? 0 then (Raise ValueError, w)
    else (Ok (a + entropy w (draws w) mod (b - a + 1)), drew w).

(** The largest number of seconds that fits the nanosecond clock of
    [time.sleep] (a signed 64-bit count). *)
Definition SLEEP_MAX : Z := 9223372036.

(** [time.sleep(secs)] for an [int]: the conversion to the clock's unit
    comes first and raises [OverflowError], then the sign is tested, then
    the platform sleeps, or refuses the deadline with [OSError]. *)
Definition sleep (secs : Z) : M unit :=
  fun w =>
    if (secs <? - SLEEP_MAX) || (SLEEP_MAX <? secs) then (Raise OverflowError, w)
    else if secs <? 0 then (Raise ValueError, w)
    else if clock w (naps w) secs then (Ok tt, napped (logged [Sleep secs] w))
    else (Raise OSError, napped w).

(* ================================================================== *)
(** ** The module [chatapi] *)

Definition SERVER_IP : pystr := lit "124.221.74.246".
Definition PORT : Z := 82.
Definition APP_ID : pystr := [].
Definition PROTOCOL : pystr := lit "http".

(** [os.environ.get('PYCHAT_APP_KEY')], read when the module is loaded. *)
Definition APP_KEY (environ : list (pystr * pystr)) : option pystr :=
  (fix get (l : list (pystr * pystr)) :=
     match l with
     | [] => None
     | (k, v) :: r => if str_eqb (lit "PYCHAT_APP_KEY") k then Some v else get r
     end) environ.

(** Truth of an optional [str] or [int] argument: [None], the empty string
    and zero are false. *)
Definition or_else_str (x : option pystr) (d : pystr) : pystr :=
  match x with
  | Some (c :: s) => c :: s
  | _ => d
  end.

Definition or_else_int (x : option Z) (d : Z) : Z :=
  match x with
  | Some n => if n =? 0 then d else n
  | None => d
  end.

Definition or_else_key (x : option pystr) (d : option pystr) : option pystr :=
  match x with
  | Some (c :: s) => Some (c :: s)
  | _ => d
  end.

Definition __init__ (environ : list (pystr * pystr))
    (server_ip_ : option pystr) (port_ : option Z)
    (app_id_ app_key_ : option pystr) : ChatAPI :=
  {| server_ip := or_else_str server_ip_ SERVER_IP;
     port := or_else_int port_ PORT;
     app_id := or_else_str app_id_ APP_ID;
     app_key := or_else_key app_key_ (APP_KEY environ);
     connected := false;
     username := [];
     session := JStr [];
     exception_stack := [] |}.

Definition _gen_salt : M pystr :=
  n <- randint 1 100000 ;;
  ret (Text.str_of_int n).

(** The loop [for i in args: sign_str += i]. *)
Fixpoint sign_str_loop (sign_str : pystr) (args : list json) : outcome pystr :=
  match args with
  | [] => Ok sign_str
  | JStr i :: rest => sign_str_loop (sign_str ++ i) rest
  | _ :: _ => Raise TypeError
  end.

Definition _get_sign (me : ChatAPI) (args : list json) : outcome pystr :=
  match app_key me with
  | None => Raise TypeError
  | Some key =>
      match sign_str_loop (app_id me ++ key) args with
      | Raise e => Raise e
      | Ok sign_str =>
          match Text.encode sign_str with
          | None => Raise UnicodeEncodeError
          | Some bytes => Ok (Sha256.hexdigest bytes)
          end
      end
  end.

(** A call [self._get_sign(...)] from a method. *)
Definition call_get_sign (args : list json) : M pystr :=
  emit (Sign args) ;;
  me <- this ;;
  lift (_get_sign me args).

Definition request_url (me : ChatAPI) (api_name : pystr) : pystr :=
  PROTOCOL ++ lit "://" ++ server_ip me ++ lit ":" ++ Text.str_of_int (port me)
           ++ lit "/api/v1/" ++ api_name.

Definition _send_request (api_name : pystr) (data : list (pystr * json)) : M json :=
  me <- this ;;
  emit (Request (request_url me api_name) data) ;;
  fun w => (replies w (sent w), answered w).

Definition _handle_exception (data : json) : M json :=
  no <- lift (getitem data (lit "err_no")) ;;
  info <- lift (getitem data (lit "err_info")) ;;
  emit (Warning no info) ;;
  assign (push_exception {| err_no := no; err_info := info |}) ;;
  ret JNull.

Definition register_user (username_ password description : pystr) : M json :=
  salt <- _gen_salt ;;
  me <- this ;;
  sign <- call_get_sign [JStr username_; JStr password; JStr description; JStr salt] ;;
  result <- _send_request (lit "register_user")
    [ (lit "app_id", JStr (app_id me));
      (lit "username", JStr username_);
      (lit "password", JStr password);
      (lit "description", JStr description);
      (lit "salt", JStr salt);
      (lit "sign", JStr sign) ] ;;
  status <- lift (getitem result (lit "status")) ;;
  if eq_zero status then ret JNull
  else _handle_exception result.

Definition login_user (username_ password : pystr) (heartbeat_interval : Z) : M json :=
  salt <- _gen_salt ;;
  me <- this ;;
  sign <- call_get_sign [JStr username_; JStr password; JStr salt] ;;
  result <- _send_request (lit "login_user")
    [ (lit "app_id", JStr (app_id me));
      (lit "username", JStr username_);
      (lit "password", JStr password);
      (lit "salt", JStr salt);
      (lit "sign", JStr sign) ] ;;
  status <- lift (getitem result (lit "status")) ;;
  if eq_zero status then
    assign (set_connected true) ;;
    assign (set_username username_) ;;
    token <- lift (getitem result (lit "session")) ;;
    assign (set_session token) ;;
    (if heartbeat_interval >? 0 then emit (ThreadStart heartbeat_interval)
     else ret tt) ;;
    ret JNull
  else _handle_exception result.

Definition heartbeat : M json :=
  salt <- _gen_salt ;;
  me <- this ;;
  sign <- call_get_sign [session me; JStr salt] ;;
  result <- _send_request (lit "heartbeat")
    [ (lit "app_id", JStr (app_id me));
      (lit "session", session me);
      (lit "salt", JStr salt);
      (lit "sign", JStr sign) ] ;;
  status <- lift (getitem result (lit "status")) ;;
  if eq_zero status then ret JNull
  else _handle_exception result.

Definition get_user_info (username_ : pystr) : M json :=
  salt <- _gen_salt ;;
  me <- this ;;
  sign <- call_get_sign [session me; JStr username_; JStr salt] ;;
  result <- _send_request (lit "get_user_info")
    [ (lit "app_id", JStr (app_id me));
      (lit "session", session me);
      (lit "username", JStr username_);
      (lit "salt", JStr salt);
      (lit "sign", JStr sign) ] ;;
  status <- lift (getitem result (lit "status")) ;;
  if eq_zero status then ret result
  else _handle_exception result.

Definition change_password (username_ new_password : pystr) : M json :=
  salt <- _gen_salt ;;
  me <- this ;;
  sign <- call_get_sign [session me; JStr username_; JStr new_password; JStr salt] ;;
  result <- _send_request (lit "change_password")
    [ (lit "app_id", JStr (app_id me));
      (lit "session", session me);
      (lit "username", JStr username_);
      (lit "new_password", JStr new_password);
      (lit "salt", JStr salt);
      (lit "sign", JStr sign) ] ;;
  status <- lift (getitem result (lit "status")) ;;
  if eq_zero status then ret result
  else _handle_exception result.

Definition send_direct_message (recv_user message : pystr) : M json :=
  salt <- _gen_salt ;;
  me <- this ;;
  sign <- call_get_sign [session me; JStr recv_user; JStr message; JStr salt] ;;
  result <- _send_request (lit "send_direct_message")
    [ (lit "app_id", JStr (app_id me));
      (lit "session", session me);
      (lit "recv_user", JStr recv_user);
      (lit "message", JStr message);
      (lit "salt", JStr salt);
      (lit "sign", JStr sign) ] ;;
  status <- lift (getitem result (lit "status")) ;;
  if eq_zero status then ret result
  else _handle_exception result.

Definition get_direct_message : M json :=
  salt <- _gen_salt ;;
  me <- this ;;
  sign <- call_get_sign [session me; JStr salt] ;;
  result <- _send_request (lit "get_direct_message")
    [ (lit "app_id", JStr (app_id me));
      (lit "session", session me);
      (lit "salt", JStr salt);
      (lit "sign", JStr sign) ] ;;
  status <- lift (getitem result (lit "status")) ;;
  if eq_zero status then ret result
  else _handle_exception result.

Definition send_group_message (gid : Z) (message : pystr) : M json :=
  salt <- _gen_salt ;;
  let gid := Text.str_of_int gid in
  me <- this ;;
  sign <- call_get_sign [session me; JStr gid; JStr message; JStr salt] ;;
  result <- _send_request (lit "send_group_message")
    [ (lit "app_id", JStr (app_id me));
      (lit "session", session me);
      (lit "gid", JStr gid);
      (lit "message", JStr message);
      (lit "salt", JStr salt);
      (lit "sign", JStr sign) ] ;;
  status <- lift (getitem result (lit "status")) ;;
  if eq_zero status then ret result
  else _handle_exception result.

Definition get_group_message (gid : Z) : M json :=
  salt <- _gen_salt ;;
  let gid := Text.str_of_int gid in
  me <- this ;;
  sign <- call_get_sign [session me; JStr gid; JStr salt] ;;
  result <- _send_request (lit "get_group_message")
    [ (lit "app_id", JStr (app_id me));
      (lit "session", session me);
      (lit "gid", JStr gid);
      (lit "salt", JStr salt);
      (lit "sign", JStr sign) ] ;;
  status <- lift (getitem result (lit "status")) ;;
  if eq_zero status then ret result
  else _handle_exception result.

Definition get_group_info (gid : Z) : M json :=
  salt <- _gen_salt ;;
  let gid := Text.str_of_int gid in
  me <- this ;;
  sign <- call_get_sign [session me; JStr gid; JStr salt] ;;
  result <- _send_request (lit "get_group_info")
    [ (lit "app_id", JStr (app_id me));
      (lit "session", session me);
      (lit "gid", JStr gid);
      (lit "salt", JStr salt);
      (lit "sign", JStr sign) ] ;;
  status <- lift (getitem result (lit "status")) ;;
  if eq_zero status then ret result
  else _handle_exception result.

Definition register_group (group_name description : pystr) : M json :=
  salt <- _gen_salt ;;
  me <- this ;;
  sign <- call_get_sign [session me; JStr group_name; JStr description; JStr salt] ;;
  result <- _send_request (lit "get_group_info")
    [ (lit "app_id", JStr (app_id me));
      (lit "session", session me);
      (lit "group_name", JStr group_name);
      (lit "description", JStr description);
      (lit "salt", JStr salt);
      (lit "sign", JStr sign) ] ;;
  status <- lift (getitem result (lit "status")) ;;
  if eq_zero status then ret result
  else _handle_exception result.

(* ------------------------------------------------------------------ *)
(** *** [start_heartbeat], one step at a time

    The loop [while self.connected: self.heartbeat(); time.sleep(i)] runs
    in a thread of its own, so it is given as a step function on its
    program points; between two steps other threads may change the
    object. *)

Inductive loop_point :=
| AtTest                 (* about to read [self.connected] *)
| AtHeartbeat            (* the test passed, about to call [heartbeat] *)
| AtSleep                (* the heartbeat returned, about to sleep *)
| Returned               (* the test failed, the thread has ended *)
| Died (e : exn).        (* an exception ended the thread *)

Definition loop_step (heartbeat_interval : Z) (pc : loop_point) (w : World)
  : loop_point * World :=
  match pc with
  | AtTest => if connected (self w) then (AtHeartbeat, w) else (Returned, w)
  | AtHeartbeat =>
      match heartbeat w with
      | (Ok _, w') => (AtSleep, w')
      | (Raise e, w') => (Died e, w')
      end
  | AtSleep =>
      match sleep heartbeat_interval w with
      | (Ok _, w') => (AtTest, w')
      | (Raise e, w') => (Died e, w')
      end
  | Returned => (Returned, w)
  | Died e => (Died e, w)
  end.

(** A schedule: the loop's thread takes a step, or another thread leaves
    the object in a new state. *)
Inductive turn :=
| Tick
| Other (o : ChatAPI).

Fixpoint run_loop (heartbeat_interval : Z) (sched : list turn)
    (pc : loop_point) (w : World) : loop_point * World :=
  match sched with
  | [] => (pc, w)
  | Tick :: rest =>
      let (pc', w') := loop_step heartbeat_interval pc w in
      run_loop heartbeat_interval rest pc' w'
  | Other o :: rest => run_loop heartbeat_interval rest pc (with_self o w)
  end.

(** [start_heartbeat] with no other thread at work, for [n] steps. *)
Definition start_heartbeat (heartbeat_interval : Z) (n : nat) (w : World)
  : loop_point * World :=
  run_loop heartbeat_interval (repeat Tick n) AtTest w.

(** The calls an application can make on the object. *)
Inductive call :=
| RegisterUser (username_ password description : pystr)
| LoginUser (username_ password : pystr) (heartbeat_interval : Z)
| Heartbeat
| GetUserInfo (username_ : pystr)
| ChangePassword (username_ new_password : pystr)
| SendDirectMessage (recv_user message : pystr)
| GetDirectMessage
| SendGroupMessage (gid : Z) (message : pystr)
| GetGroupMessage (gid : Z)
| GetGroupInfo (gid : Z)
| RegisterGroup (group_name description : pystr).

Definition invoke (c : call) : M json :=
  match c with
  | RegisterUser u p d => register_user u p d
  | LoginUser u p i => login_user u p i
  | Heartbeat => heartbeat
  | GetUserInfo u => get_user_info u
  | ChangePassword u p => change_password u p
  | SendDirectMessage r m => send_direct_message r m
  | GetDirectMessage => get_direct_message
  | SendGroupMessage g m => send_group_message g m
  | GetGroupMessage g => get_group_message g
  | GetGroupInfo g => get_group_info g
  | RegisterGroup n d => register_group n d
  end.

(** The parts of a call, read off the methods: the endpoint, the
    request body and what a status of zero leads to. *)
Definition api_name (c : call) : pystr :=
  match c with
  | RegisterUser _ _ _ => lit "register_user"
  | LoginUser _ _ _ => lit "login_user"
  | Heartbeat => lit "heartbeat"
  | GetUserInfo _ => lit "get_user_info"
  | ChangePassword _ _ => lit "change_password"
  | SendDirectMessage _ _ => lit "send_direct_message"
  | GetDirectMessage => lit "get_direct_message"
  | SendGroupMessage _ _ => lit "send_group_message"
  | GetGroupMessage _ => lit "get_group_message"
  | GetGroupInfo _ => lit "get_group_info"
  | RegisterGroup _ _ => lit "get_group_info"
  end.

Definition payload (c : call) (me : ChatAPI) (salt sign : pystr)
  : list (pystr * json) :=
  let first := (lit "app_id", JStr (app_id me)) in
  let auth := (lit "session", session me) in
  let last := [(lit "salt", JStr salt); (lit "sign", JStr sign)] in
  match c with
  | RegisterUser u p d =>
      first :: (lit "username", JStr u) :: (lit "password", JStr p)
            :: (lit "description", JStr d) :: last
  | LoginUser u p _ =>
      first :: (lit "username", JStr u) :: (lit "password", JStr p) :: last
  | Heartbeat => first :: auth :: last
  | GetUserInfo u => first :: auth :: (lit "username", JStr u) :: last
  | ChangePassword u p =>
      first :: auth :: (lit "username", JStr u)
            :: (lit "new_password", JStr p) :: last
  | SendDirectMessage r m =>
      first :: auth :: (lit "recv_user", JStr r) :: (lit "message", JStr m) :: last
  | GetDirectMessage => first :: auth :: last
  | SendGroupMessage g m =>
      first :: auth :: (lit "gid", JStr (Text.str_of_int g))
            :: (lit "message", JStr m) :: last
  | GetGroupMessage g =>
      first :: auth :: (lit "gid", JStr (Text.str_of_int g)) :: last
  | GetGroupInfo g =>
      first :: auth :: (lit "gid", JStr (Text.str_of_int g)) :: last
  | RegisterGroup n d =>
      first :: auth :: (lit "group_name", JStr n)
            :: (lit "description", JStr d) :: last
  end.

Definition on_success (c : call) (result : json) : M json :=
  match c with
  | RegisterUser _ _ _ | Heartbeat => ret JNull
  | LoginUser username_ _ heartbeat_interval =>
      assign (set_connected true) ;;
      assign (set_username username_) ;;
      token <- lift (getitem result (lit "session")) ;;
      assign (set_session token) ;;
      (if heartbeat_interval >? 0 then emit (ThreadStart heartbeat_interval)
       else ret tt) ;;
      ret JNull
  | _ => ret result
  end.

(** The branch on [result['status']] that ends every method. *)
Definition conclude (c : call) (result : json) : M json :=
  status <- lift (getitem result (lit "status")) ;;
  if eq_zero status then on_success c result
  else _handle_exception result.

(* ================================================================== *)
(** ** What the specification says, as definitions *)

Module Spec.

(** The signature as the specification words it: the lowercase
    hexadecimal form of the SHA-256 hash of the UTF-8 bytes of
    [appId || appKey || field[0] || ... || field[n-1]]. *)
Definition sign (appId appKey : pystr) (fields : list pystr) : option pystr :=
  match Text.encode (appId ++ appKey ++ concat fields) with
  | Some bytes => Some (Sha256.hex (Sha256.digest bytes))
  | None => None
  end.

(** Operations that present the session token. *)
Definition authenticated (c : call) : bool :=
  match c with
  | RegisterUser _ _ _ | LoginUser _ _ _ => false
  | _ => true
  end.

(** The table of signed fields, in order, as the specification gives
    it; [gid] stands in it as a string. *)
Definition signed_fields (c : call) (session salt : json) : list json :=
  match c with
  | RegisterUser username password description =>
      [JStr username; JStr password; JStr description; salt]
  | LoginUser username password _ =>
      [JStr username; JStr password; salt]
  | Heartbeat => [session; salt]
  | GetUserInfo username => [session; JStr username; salt]
  | ChangePassword username new_password =>
      [session; JStr username; JStr new_password; salt]
  | SendDirectMessage recv_user message =>
      [session; JStr recv_user; JStr message; salt]
  | GetDirectMessage => [session; salt]
  | SendGroupMessage gid message =>
      [session; JStr (Text.str_of_int gid); JStr message; salt]
  | GetGroupMessage gid => [session; JStr (Text.str_of_int gid); salt]
  | GetGroupInfo gid => [session; JStr (Text.str_of_int gid); salt]
  | RegisterGroup group_name description =>
      [session; JStr group_name; JStr description; salt]
  end.

End Spec.

(** An instance as the demo at the end of the module builds it. *)
Definition api_test : ChatAPI :=
  __init__ [] (Some (lit "127.0.0.1")) (Some 5000)
           (Some (lit "MZFiLAzmJu")) (Some (lit "vUCiKf167oNUfpdbsxKs")).

(** Predicates the proofs use. *)
Module Aux.

Definition is_byte (b : Z) : Prop := 0 <= b < 256.

(** A character of [0-9a-f]. *)
Definition is_lower_hex (c : Z) : bool :=
  ((48 <=? c) && (c <=? 57)) || ((97 <=? c) && (c <=? 102)).

(** The four layouts, in arithmetic. *)
Inductive layout (c : Z) : list Z -> Prop :=
| One : 0 <= c < 128 -> layout c [c]
| Two b0 b1 :
    128 <= c < 2048 ->
    b0 = 192 + c / 64 -> b1 = 128 + c mod 64 ->
    layout c [b0; b1]
| Three b0 b1 b2 :
    2048 <= c < 65536 ->
    b0 = 224 + c / 4096 -> b1 = 128 + (c / 64) mod 64 -> b2 = 128 + c mod 64 ->
    layout c [b0; b1; b2]
| Four b0 b1 b2 b3 :
    65536 <= c < 1114112 ->
    b0 = 240 + c / 262144 -> b1 = 128 + (c / 4096) mod 64 ->
    b2 = 128 + (c / 64) mod 64 -> b3 = 128 + c mod 64 ->
    layout c [b0; b1; b2; b3].

(** A field that [_get_sign] can take: a [str] with a UTF-8 encoding. *)
Definition signable_field (v : json) : bool :=
  match v with
  | JStr s => Text.encodable s
  | _ => false
  end.

(** The object can sign call [c]: a key is set, and the application id,
    the key and every field of the call have an encoding. *)
Definition signable (o : ChatAPI) (c : call) : bool :=
  match app_key o with
  | None => false
  | Some key =>
      Text.encodable (app_id o) && Text.encodable key &&
      forallb signable_field (Spec.signed_fields c (session o) (JStr []))
  end.

(** Events that are neither a signature nor a request. *)
Definition quiet (e : event) : bool :=
  match e with
  | Warning _ _ | ThreadStart _ => true
  | _ => false
  end.

(** The group a call names, if any. *)
Definition gid_of (c : call) : option Z :=
  match c with
  | SendGroupMessage g _ | GetGroupMessage g | GetGroupInfo g => Some g
  | _ => None
  end.

(** A world around an object: fresh counters, an empty log, a clock
    that takes sleeps of up to a day. *)
Definition world_of (o : ChatAPI) (rs : nat -> outcome json) : World :=
  {| self := o; entropy := fun n => 76 + Z.of_nat n; draws := 0;
     replies := rs; sent := 0;
     clock := fun _ secs => secs <=? 86400; naps := 0; log := [] |}.

(** An object built with no key, in an environment that has none. *)
Definition keyless : ChatAPI := __init__ [] None None None None.

(** *** Reading a run of the heartbeat loop *)

Definition requests (l : list event) : nat :=
  length (filter (fun e => match e with Request _ _ => true | _ => false end) l).

(** What an observer of the loop sees: a request, or a sleep. *)
Inductive beat :=
| Beat
| Nap (seconds : Z).

Fixpoint pulse (l : list event) : list beat :=
  match l with
  | [] => []
  | Request _ _ :: r => Beat :: pulse r
  | Sleep s :: r => Nap s :: pulse r
  | _ :: r => pulse r
  end.

Fixpoint ticks (sched : list turn) : nat :=
  match sched with
  | [] => O
  | Tick :: r => S (ticks r)
  | Other _ :: r => ticks r
  end.

(** Every state that another thread leaves satisfies [p]. *)
Fixpoint others (p : ChatAPI -> bool) (sched : list turn) : bool :=
  match sched with
  | [] => true
  | Tick :: r => others p r
  | Other o :: r => p o && others p r
  end.

Definition running (pc : loop_point) : bool :=
  match pc with
  | AtTest | AtHeartbeat | AtSleep => true
  | _ => false
  end.

(** Requests the cycle in flight at [pc] has still to send. *)
Definition in_flight (pc : loop_point) : nat :=
  match pc with
  | AtHeartbeat => 1
  | _ => 0
  end.

(** Steps after which the loop has ended if the flag stays false. *)
Definition steps_left (pc : loop_point) : nat :=
  match pc with
  | AtHeartbeat => 3
  | AtSleep => 2
  | AtTest => 1
  | _ => 0
  end.

(** What [n] steps from [pc] show when nothing stops the loop. *)
Fixpoint cycle (i : Z) (pc : loop_point) (n : nat) : list beat :=
  match n with
  | O => []
  | S k =>
      match pc with
      | AtTest => cycle i AtHeartbeat k
      | AtHeartbeat => Beat :: cycle i AtSleep k
      | AtSleep => Nap i :: cycle i AtTest k
      | _ => []
      end
  end.

(** The object is connected and can sign a heartbeat. *)
Definition hale (o : ChatAPI) : bool := connected o && signable o Heartbeat.

(** A reply as the protocol has it: a status, and with a status other
    than zero an error code and message. *)
Definition well_formed_reply (r : outcome json) : bool :=
  match r with
  | Ok (JDict kvs) =>
      match lookup (lit "status") kvs with
      | Some st =>
          eq_zero st ||
          match lookup (lit "err_no") kvs, lookup (lit "err_info") kvs with
          | Some _, Some _ => true
          | _, _ => false
          end
      | None => false
      end
  | _ => false
  end.

(** The demo object after a login, and a server that accepts all. *)
Definition logged_in : ChatAPI :=
  set_session (JStr (lit "tok123"))
    (set_username (lit "apitest") (set_connected true api_test)).

Definition accepting : nat -> outcome json :=
  fun _ => Ok (JDict [(lit "status", JInt 0)]).

Definition refusing : nat -> outcome json :=
  fun _ => Ok (JDict [(lit "status", JInt 1);
                      (lit "err_no", JInt 1003);
                      (lit "err_info", JStr (lit "denied"))]).

Definition welcoming : nat -> outcome json :=
  fun _ => Ok (JDict [(lit "status", JInt 0);
                      (lit "session", JStr (lit "tok123"))]).

(** An object whose key is the empty string of the environment. *)
Definition empty_keyed : ChatAPI :=
  __init__ [(lit "PYCHAT_APP_KEY", [])] None None (Some (lit "MZFiLAzmJu")) None.

End Aux.

(** Further predicates and readings, for the properties beyond the
    signature and the session. *)
Module More.

(** Every argument is a [str]. *)
Definition all_str (args : list json) : bool :=
  forallb (fun v => match v with JStr _ => true | _ => false end) args.

(** The text of the [str] arguments, one after the other. *)
Definition text_of (args : list json) : pystr :=
  concat (map (fun v => match v with JStr s => s | _ => [] end) args).

(** [int(s)] on a numeral with an optional minus sign. *)
Definition int_of_str (s : pystr) : Z :=
  match s with
  | c :: r => if c =? 45 then - Text.int_of_digits r else Text.int_of_digits s
  | [] => 0
  end.

Definition is_login (c : call) : bool :=
  match c with
  | LoginUser _ _ _ => true
  | _ => false
  end.

(** The calls whose method ends in [return result]. *)
Definition returns_mapping (c : call) : bool :=
  match c with
  | RegisterUser _ _ _ | LoginUser _ _ _ | Heartbeat => false
  | _ => true
  end.

Definition warnings (l : list event) : nat :=
  length (filter (fun e => match e with Warning _ _ => true | _ => false end) l).

Definition threads (l : list event) : list Z :=
  flat_map (fun e => match e with ThreadStart i => [i] | _ => [] end) l.

(** A request body without its [sign] entry. *)
Definition without_sign (data : list (pystr * json)) : list (pystr * json) :=
  filter (fun kv => negb (str_eqb (fst kv) (lit "sign"))) data.

(** The bodies of the requests in a log. *)
Definition bodies (l : list event) : list (pystr * list (pystr * json)) :=
  flat_map (fun e => match e with
                     | Request url data => [(url, without_sign data)]
                     | _ => []
                     end) l.

Definition with_app_key (k : option pystr) (o : ChatAPI) : ChatAPI :=
  {| server_ip := server_ip o; port := port o; app_id := app_id o;
     app_key := k; connected := connected o; username := username o;
     session := session o; exception_stack := exception_stack o |}.

(** A reply that reports a failure with its code and message. *)
Definition failure_reply (r : outcome json) : bool :=
  match r with
  | Ok (JDict kvs) =>
      match lookup (lit "status") kvs, lookup (lit "err_no") kvs,
            lookup (lit "err_info") kvs with
      | Some st, Some _, Some _ => negb (eq_zero st)
      | _, _, _ => false
      end
  | _ => false
  end.

(** The world once the signed request has left. *)
Definition requested (c : call) (salt sig : pystr) (w : World) : World :=
  answered
    (logged [Request (request_url (self w) (api_name c))
               (payload c (self w) salt sig)]
       (logged [Sign (Spec.signed_fields c (session (self w)) (JStr salt))]
          (drew w))).

End More.

(* ================================================================== *)
(** ** Text: decimal numerals and UTF-8 *)

Module TextFacts.
Import Text.

Lemma digits_acc (fuel : nat) : forall n acc,
  digits fuel n acc = digits fuel n [] ++ acc.
Proof.
  induction fuel as [|f IH]; intros n acc; simpl; [reflexivity|].
  destruct (n <? 10); [reflexivity|].
  rewrite (IH (n / 10) (digit (n mod 10) :: acc)).
  rewrite (IH (n / 10) [digit (n mod 10)]).
  rewrite <- app_assoc. reflexivity.
Qed.

Lemma int_of_digits_snoc (s : pystr) (c : Z) :
  int_of_digits (s ++ [c]) = 10 * int_of_digits s + (c - 48).
Proof. unfold int_of_digits. rewrite fold_left_app. reflexivity. Qed.

Lemma digits_value (fuel : nat) : forall n,
  0 <= n < Z.of_nat fuel -> int_of_digits (digits fuel n []) = n.
Proof.
  induction fuel as [|f IH]; intros n Hn; [lia|].
  simpl. destruct (Z.ltb_spec n 10) as [Hlt|Hge].
  - unfold int_of_digits, digit. cbn [fold_left]. lia.
  - rewrite digits_acc, int_of_digits_snoc, IH.
    + unfold digit. pose proof (Z.div_mod n 10 ltac:(lia)). lia.
    + split; [apply Z.div_pos; lia|].
      assert (n / 10 < n) by (apply Z.div_lt; lia). lia.
Qed.

Lemma digits_are_digits (fuel : nat) : forall n acc,
  0 <= n < Z.of_nat fuel -> forallb is_digit acc = true ->
  forallb is_digit (digits fuel n acc) = true.
Proof.
  induction fuel as [|f IH]; intros n acc Hn Hacc; [lia|].
  simpl. destruct (Z.ltb_spec n 10) as [Hlt|Hge].
  - simpl. rewrite Hacc. unfold is_digit, digit.
    rewrite andb_true_r. apply andb_true_iff. split; apply Z.leb_le; lia.
  - apply IH.
    + split; [apply Z.div_pos; lia|].
      assert (n / 10 < n) by (apply Z.div_lt; lia). lia.
    + simpl. rewrite Hacc, andb_true_r. unfold is_digit, digit.
      pose proof (Z.mod_pos_bound n 10).
      apply andb_true_iff. split; apply Z.leb_le; lia.
Qed.

Lemma digits_leading (fuel : nat) : forall n acc,
  1 <= n < Z.of_nat fuel -> 49 <= hd 0 (digits fuel n acc) <= 57.
Proof.
  induction fuel as [|f IH]; intros n acc Hn; [lia|].
  simpl. destruct (Z.ltb_spec n 10) as [Hlt|Hge].
  - simpl. unfold digit. lia.
  - apply IH. split.
    + apply Z.div_le_lower_bound; lia.
    + assert (n / 10 < n) by (apply Z.div_lt; lia). lia.
Qed.

Lemma str_of_int_nonneg (n : Z) :
  0 <= n -> str_of_int n = digits (S (Z.to_nat n)) n [].
Proof.
  intros Hn. unfold str_of_int.
  destruct (Z.ltb_spec n 0); [lia|reflexivity].
Qed.

Lemma str_of_int_digits (n : Z) :
  0 <= n -> forallb is_digit (str_of_int n) = true.
Proof.
  intros Hn. rewrite str_of_int_nonneg by assumption.
  apply digits_are_digits; [lia|reflexivity].
Qed.

Lemma str_of_int_value (n : Z) :
  0 <= n -> int_of_digits (str_of_int n) = n.
Proof.
  intros Hn. rewrite str_of_int_nonneg by assumption.
  apply digits_value. lia.
Qed.

(** The numeral of any integer is a minus sign or not, then digits. *)
Lemma str_of_int_shape (n : Z) :
  forallb is_digit (str_of_int n) = true \/
  exists r, str_of_int n = 45 :: r /\ forallb is_digit r = true.
Proof.
  destruct (Z.ltb_spec n 0) as [Hneg|Hpos].
  - right. unfold str_of_int.
    destruct (Z.ltb_spec n 0); [|lia].
    eexists; split; [reflexivity|].
    apply digits_are_digits; [lia|reflexivity].
  - left. apply str_of_int_digits; assumption.
Qed.

(** *** Encoding *)

Lemma encode_app (a b : pystr) :
  encode (a ++ b) =
  match encode a, encode b with
  | Some x, Some y => Some (x ++ y)
  | _, _ => None
  end.
Proof.
  induction a as [|c a IH]; simpl.
  - destruct (encode b); reflexivity.
  - rewrite IH. destruct (encode_point c); [|reflexivity].
    destruct (encode a); [|reflexivity].
    destruct (encode b); [|reflexivity].
    rewrite app_assoc. reflexivity.
Qed.

Lemma encode_point_some (c : Z) :
  is_code_point c && negb (is_surrogate c) = true ->
  exists bs, encode_point c = Some bs.
Proof.
  intros H. apply andb_true_iff in H. destruct H as [Hc Hs].
  unfold encode_point. rewrite Hc. simpl.
  apply negb_true_iff in Hs. rewrite Hs.
  destruct (c <? 0x80); [eauto|].
  destruct (c <? 0x800); [eauto|].
  destruct (c <? 0x10000); eauto.
Qed.

Lemma encodable_encode (s : pystr) :
  encodable s = true -> exists bs, encode s = Some bs.
Proof.
  induction s as [|c s IH]; simpl; intros H; [eauto|].
  apply andb_true_iff in H. destruct H as [Hc Hs].
  destruct (encode_point_some c Hc) as [b ->].
  destruct (IH Hs) as [bs ->]. eauto.
Qed.

Lemma encodable_app (a b : pystr) :
  encodable (a ++ b) = encodable a && encodable b.
Proof. apply forallb_app. Qed.

Lemma digit_run_encodable (s : pystr) :
  forallb is_digit s = true -> encodable s = true.
Proof.
  induction s as [|c s IH]; simpl; intros H; [reflexivity|].
  apply andb_true_iff in H. destruct H as [Hc Hs].
  rewrite (IH Hs), andb_true_r.
  unfold is_digit in Hc. apply andb_true_iff in Hc. destruct Hc as [H1 H2].
  apply Z.leb_le in H1, H2.
  unfold is_code_point, is_surrogate.
  apply andb_true_iff. split.
  - apply andb_true_iff. split; apply Z.leb_le; lia.
  - apply negb_true_iff, andb_false_iff. left. apply Z.leb_gt. lia.
Qed.

Lemma str_of_int_encodable (n : Z) : encodable (str_of_int n) = true.
Proof.
  destruct (str_of_int_shape n) as [H|[r [E H]]].
  - apply digit_run_encodable; assumption.
  - rewrite E. simpl. apply digit_run_encodable; assumption.
Qed.

End TextFacts.

Example sha256_empty :
  Sha256.hexdigest [] =
  lit "e3b0c44298fc1c149afbf4c8996fb92427ae41e4649b934ca495991b7852b855".
Proof. vm_compute. reflexivity. Qed.

Example sha256_abc :
  Sha256.hexdigest (lit "abc") =
  lit "ba7816bf8f01cfea414140de5dae2223b00361a396177a9cb410ff61f20015ad".
Proof. vm_compute. reflexivity. Qed.

Example sha256_two_blocks :
  Sha256.hexdigest (repeat 97 56) =
  lit "b35439a4ac6f0948b6d6f9e3c6af0f5f590ce20f1bde7090ef7970686ec6738a".
Proof. vm_compute. reflexivity. Qed.

Example sha256_block_edge :
  Sha256.hexdigest (repeat 97 119) =
  lit "31eba51c313a5c08226adf18d4a359cfdfd8d2e816b13f4af952f7ea6584dcfb".
Proof. vm_compute. reflexivity. Qed.

Example str_of_int_42 : Text.str_of_int 42 = lit "42".
Proof. reflexivity. Qed.
Example str_of_int_0 : Text.str_of_int 0 = lit "0".
Proof. reflexivity. Qed.
Example str_of_int_neg : Text.str_of_int (-305) = lit "-305".
Proof. reflexivity. Qed.
Example str_of_int_top : Text.str_of_int 100000 = lit "100000".
Proof. vm_compute. reflexivity. Qed.
(* U+00E9, U+20AC and U+1F600 *)
Example encode_samples :
  Text.encode [0xE9; 0x20AC; 0x1F600] =
  Some [0xC3; 0xA9; 0xE2; 0x82; 0xAC; 0xF0; 0x9F; 0x98; 0x80].
Proof. reflexivity. Qed.
Example encode_surrogate : Text.encode [0xD800] = None.
Proof. reflexivity. Qed.

(** *** UTF-8 is injective *)

Module Utf8.
Import Text Aux.

Lemma lor_high_low (h x k : Z) :
  0 <= k -> 0 <= x < 2 ^ k -> Z.lor (h * 2 ^ k) x = h * 2 ^ k + x.
Proof.
  intros Hk Hx.
  assert (Hland : Z.land (h * 2 ^ k) x = 0).
  { apply Z.bits_inj'. intros i Hi.
    rewrite Z.land_spec, Z.bits_0.
    destruct (Z.lt_ge_cases i k) as [Hlow|Hhigh].
    - rewrite Z.mul_pow2_bits_low by lia. reflexivity.
    - rewrite <- (Z.mod_small x (2 ^ k)) by lia.
      rewrite Z.mod_pow2_bits_high by lia. apply andb_false_r. }
  rewrite <- Z.lxor_lor by assumption.
  symmetry. apply Z.add_nocarry_lxor. assumption.
Qed.

Lemma low6 (c : Z) : Z.land c 0x3F = c mod 64.
Proof. change 0x3F with (Z.ones 6). rewrite Z.land_ones by lia. reflexivity. Qed.

Lemma cont_byte (y : Z) : Z.lor 0x80 (Z.land y 0x3F) = 128 + y mod 64.
Proof.
  rewrite low6. pose proof (Z.mod_pos_bound y 64 ltac:(lia)).
  exact (lor_high_low 2 (y mod 64) 6 ltac:(lia) ltac:(simpl; lia)).
Qed.

Lemma some_eq {A} (x y : A) : Some x = Some y -> x = y.
Proof. congruence. Qed.

Lemma encode_point_layout (c : Z) (bs : list Z) :
  encode_point c = Some bs -> layout c bs.
Proof.
  unfold encode_point, is_code_point, is_surrogate.
  destruct (Z.leb_spec 0 c); cbn [andb negb]; [|discriminate].
  destruct (Z.leb_spec c 0x10FFFF); cbn [andb negb]; [|discriminate].
  destruct (Z.ltb_spec c 0x80).
  { intros E. apply some_eq in E. subst bs. apply One. lia. }
  destruct (Z.ltb_spec c 0x800).
  { intros E. apply some_eq in E. subst bs.
    rewrite cont_byte, Z.shiftr_div_pow2 by lia.
    change (2 ^ 6) with 64.
    assert (0 <= c / 64 < 32)
      by (split; [apply Z.div_pos|apply Z.div_lt_upper_bound]; lia).
    change 192 with (3 * 2 ^ 6) at 1.
    rewrite (lor_high_low 3 (c / 64) 6) by (simpl; lia).
    change (3 * 2 ^ 6) with 192.
    apply Two; [lia|reflexivity..]. }
  destruct ((0xD800 <=? c) && (c <=? 0xDFFF)); [discriminate|].
  destruct (Z.ltb_spec c 0x10000).
  { intros E. apply some_eq in E. subst bs.
    rewrite !cont_byte, !Z.shiftr_div_pow2 by lia.
    change (2 ^ 6) with 64. change (2 ^ 12) with 4096.
    assert (0 <= c / 4096 < 16)
      by (split; [apply Z.div_pos|apply Z.div_lt_upper_bound]; lia).
    change 224 with (14 * 2 ^ 4) at 1.
    rewrite (lor_high_low 14 (c / 4096) 4) by (simpl; lia).
    change (14 * 2 ^ 4) with 224.
    apply Three; [lia|reflexivity..]. }
  intros E. apply some_eq in E. subst bs.
  rewrite !cont_byte, !Z.shiftr_div_pow2 by lia.
  change (2 ^ 6) with 64. change (2 ^ 12) with 4096. change (2 ^ 18) with 262144.
  assert (0 <= c / 262144 < 8)
    by (split; [apply Z.div_pos|apply Z.div_lt_upper_bound]; lia).
  change 240 with (30 * 2 ^ 3) at 1.
  rewrite (lor_high_low 30 (c / 262144) 3) by (simpl; lia).
  change (30 * 2 ^ 3) with 240.
  apply Four; [lia|reflexivity..].
Qed.

(** No layout is a prefix of another one's continuation. *)
Lemma layout_prefix_free (c1 c2 : Z) (b1 b2 r1 r2 : list Z) :
  layout c1 b1 -> layout c2 b2 -> b1 ++ r1 = b2 ++ r2 -> c1 = c2 /\ r1 = r2.
Proof.
  intros L1 L2 E.
  destruct L1; destruct L2; cbn [app] in E; injection E; clear E; intros;
    subst; (split; [|try reflexivity]); Z.div_mod_to_equations; lia.
Qed.

Lemma layout_nonempty (c : Z) (bs : list Z) : layout c bs -> bs <> [].
Proof. intros []; discriminate. Qed.

Theorem encode_inj (s1 : pystr) : forall s2 bs,
  encode s1 = Some bs -> encode s2 = Some bs -> s1 = s2.
Proof.
  induction s1 as [|c1 s1 IH]; intros [|c2 s2] bs; simpl.
  - reflexivity.
  - intros [= <-].
    destruct (encode_point c2) as [b|] eqn:E2; [|discriminate].
    destruct (encode s2); [|discriminate].
    intros [= E]. apply encode_point_layout, layout_nonempty in E2.
    destruct b; [congruence|discriminate].
  - destruct (encode_point c1) as [b|] eqn:E1; [|discriminate].
    destruct (encode s1); [|discriminate].
    intros [= <-] [= E]. apply encode_point_layout, layout_nonempty in E1.
    destruct b; [congruence|discriminate].
  - destruct (encode_point c1) as [b1|] eqn:E1; [|discriminate].
    destruct (encode s1) as [r1|] eqn:R1; [|discriminate].
    destruct (encode_point c2) as [b2|] eqn:E2; [|discriminate].
    destruct (encode s2) as [r2|] eqn:R2; [|discriminate].
    intros [= <-] [= E].
    apply encode_point_layout in E1, E2.
    destruct (layout_prefix_free c2 c1 b2 b1 r2 r1 E2 E1 E) as [-> ->].
    f_equal. apply (IH s2 r1 eq_refl R2).
Qed.

End Utf8.

(** *** The shape of a digest *)

Module Sha256Facts.
Import Sha256 Aux.

Lemma be_bytes_bytes (n : nat) (x : Z) : Forall is_byte (be_bytes n x).
Proof.
  induction n as [|n IH]; simpl; constructor; [|assumption].
  apply Z.mod_pos_bound. lia.
Qed.

Lemma be_bytes_length (n : nat) (x : Z) : length (be_bytes n x) = n.
Proof. induction n as [|n IH]; simpl; congruence. Qed.

Lemma compress_length (h block : list Z) :
  length h = 8%nat -> length (compress h block) = 8%nat.
Proof.
  intros Hh. unfold compress.
  rewrite length_map, length_combine, Hh. reflexivity.
Qed.

Lemma blocks_length (n : nat) : forall h bs,
  length h = 8%nat -> length (blocks n h bs) = 8%nat.
Proof.
  induction n as [|n IH]; intros h bs Hh; simpl; [assumption|].
  apply IH, compress_length, Hh.
Qed.

Lemma digest_length (msg : list Z) : length (digest msg) = 32%nat.
Proof.
  unfold digest.
  assert (H : forall l, length (flat_map (be_bytes 4) l) = (4 * length l)%nat).
  { induction l as [|x l IH]; [reflexivity|].
    cbn [flat_map]. rewrite length_app, be_bytes_length, IH. simpl. lia. }
  rewrite H, blocks_length; reflexivity.
Qed.

Lemma digest_bytes (msg : list Z) : Forall is_byte (digest msg).
Proof.
  unfold digest. generalize (blocks (length (pad msg) / 64) initial_hash (pad msg)).
  induction l as [|x l IH]; cbn [flat_map]; [constructor|].
  apply Forall_app. split; [apply be_bytes_bytes|assumption].
Qed.

Lemma hex_digit_lower (d : Z) :
  0 <= d < 16 -> is_lower_hex (hex_digit d) = true.
Proof.
  intros Hd. unfold hex_digit, is_lower_hex.
  destruct (Z.ltb_spec d 10); apply orb_true_iff; [left|right];
    apply andb_true_iff; split; apply Z.leb_le; lia.
Qed.

Lemma hex_digit_inj (d e : Z) :
  0 <= d < 16 -> 0 <= e < 16 -> hex_digit d = hex_digit e -> d = e.
Proof.
  unfold hex_digit. intros Hd He.
  destruct (Z.ltb_spec d 10), (Z.ltb_spec e 10); lia.
Qed.

Lemma nibbles (b : Z) : is_byte b -> 0 <= b / 16 < 16 /\ 0 <= b mod 16 < 16.
Proof. unfold is_byte. intros Hb. Z.div_mod_to_equations. lia. Qed.

Lemma hex_length (bs : list Z) : length (hex bs) = (2 * length bs)%nat.
Proof.
  unfold hex. induction bs as [|b bs IH]; [reflexivity|].
  cbn [flat_map app length]. rewrite IH. lia.
Qed.

Lemma hex_lower (bs : list Z) :
  Forall is_byte bs -> forallb is_lower_hex (hex bs) = true.
Proof.
  unfold hex. induction 1 as [|b bs Hb _ IH]; [reflexivity|].
  cbn [flat_map app forallb]. destruct (nibbles b Hb) as [Hq Hr].
  rewrite (hex_digit_lower _ Hq), (hex_digit_lower _ Hr), IH. reflexivity.
Qed.

Lemma hex_inj (a : list Z) : forall b,
  Forall is_byte a -> Forall is_byte b -> hex a = hex b -> a = b.
Proof.
  unfold hex.
  induction a as [|x a IH]; intros [|y b] Ha Hb E; cbn [flat_map app] in E;
    try discriminate; [reflexivity|].
  inversion Ha as [|? ? Hx Ha']; inversion Hb as [|? ? Hy Hb']; subst.
  assert (E1 : hex_digit (x / 16) = hex_digit (y / 16)) by congruence.
  assert (E2 : hex_digit (x mod 16) = hex_digit (y mod 16)) by congruence.
  assert (E3 : flat_map (fun b => [hex_digit (b / 16); hex_digit (b mod 16)]) a
             = flat_map (fun b => [hex_digit (b / 16); hex_digit (b mod 16)]) b)
    by congruence.
  destruct (nibbles x Hx) as [Hxq Hxr]. destruct (nibbles y Hy) as [Hyq Hyr].
  apply hex_digit_inj in E1; [|assumption..].
  apply hex_digit_inj in E2; [|assumption..].
  f_equal; [|apply IH; assumption].
  rewrite (Z.div_mod x 16), (Z.div_mod y 16) by lia. congruence.
Qed.

(** A signature is 64 characters of [0-9a-f]. *)
Lemma hexdigest_shape (msg : list Z) :
  length (hexdigest msg) = 64%nat /\
  forallb is_lower_hex (hexdigest msg) = true.
Proof.
  unfold hexdigest. split.
  - rewrite hex_length, digest_length. reflexivity.
  - apply hex_lower, digest_bytes.
Qed.

(** Two signatures are equal exactly when the digests are. *)
Lemma hexdigest_inj (m1 m2 : list Z) :
  hexdigest m1 = hexdigest m2 -> digest m1 = digest m2.
Proof. apply hex_inj; apply digest_bytes. Qed.

End Sha256Facts.

(* ================================================================== *)
(** ** The signature engine *)

Lemma sign_str_loop_strs (fields : list pystr) : forall acc,
  sign_str_loop acc (map JStr fields) = Ok (acc ++ concat fields).
Proof.
  induction fields as [|f fields IH]; intros acc; simpl.
  - rewrite app_nil_r. reflexivity.
  - rewrite IH, <- app_assoc. reflexivity.
Qed.

Lemma get_sign_strs (me : ChatAPI) (key : pystr) (fields : list pystr) :
  app_key me = Some key ->
  _get_sign me (map JStr fields) =
  match Text.encode (app_id me ++ key ++ concat fields) with
  | Some bytes => Ok (Sha256.hexdigest bytes)
  | None => Raise UnicodeEncodeError
  end.
Proof.
  intros Hkey. unfold _get_sign. rewrite Hkey, sign_str_loop_strs.
  rewrite <- app_assoc. reflexivity.
Qed.

(** C1. For every application id, application key and ordered sequence of
    string fields, [_get_sign] returns the lowercase hexadecimal encoding
    of the SHA-256 hash of the UTF-8 bytes of the delimiter-free
    concatenation [appId || appKey || field[0] || ... || field[n-1]]
    (and raises [UnicodeEncodeError] exactly when that text has no UTF-8
    encoding); a signature is 64 characters of [0-9a-f]. *)
Theorem get_sign_is_hex_sha256_of_concatenation
    (me : ChatAPI) (appKey : pystr) (fields : list pystr) :
  app_key me = Some appKey ->
  _get_sign me (map JStr fields) =
    match Spec.sign (app_id me) appKey fields with
    | Some s => Ok s
    | None => Raise UnicodeEncodeError
    end
  /\ (Text.encodable (app_id me ++ appKey ++ concat fields) = true ->
      exists s, _get_sign me (map JStr fields) = Ok s /\
                Spec.sign (app_id me) appKey fields = Some s /\
                length s = 64%nat /\
                forallb Aux.is_lower_hex s = true).
Proof.
  intros Hkey. rewrite (get_sign_strs me appKey fields Hkey). unfold Spec.sign.
  split.
  - destruct (Text.encode _); reflexivity.
  - intros Henc. destruct (TextFacts.encodable_encode _ Henc) as [bytes ->].
    exists (Sha256.hexdigest bytes).
    destruct (Sha256Facts.hexdigest_shape bytes) as [Hlen Hhex].
    repeat split; assumption.
Qed.

Lemma get_sign_is_hex_sha256_of_concatenation_witness :
  app_key api_test = Some (lit "vUCiKf167oNUfpdbsxKs") /\
  _get_sign api_test (map JStr [lit "tok123"; lit "alice"; lit "77"]) =
    Ok (lit "905ebfddf3ba8b913d6d20361781c0ac0e4fb4bc8104b385e15334741cfa180a").
Proof.
  split; [reflexivity|].
  destruct (get_sign_is_hex_sha256_of_concatenation api_test
              (lit "vUCiKf167oNUfpdbsxKs")
              [lit "tok123"; lit "alice"; lit "77"] eq_refl) as [E _].
  rewrite E. vm_compute. reflexivity.
Defined.

(* ================================================================== *)
(** ** Construction and the salt *)

(** C10. At construction a falsy explicit argument (the empty string for
    [server_ip], [app_id] or [app_key], zero for [port]) gives the same
    object as leaving the argument out: the attribute takes the module's
    default, and for [app_key] the value found in the environment, so an
    empty key that was passed explicitly is replaced, not kept. *)
Theorem init_falsy_argument_is_default
    (environ : list (pystr * pystr))
    (ip : option pystr) (p : option Z) (id key : option pystr) :
  __init__ environ (Some []) p id key = __init__ environ None p id key /\
  __init__ environ ip (Some 0) id key = __init__ environ ip None id key /\
  __init__ environ ip p (Some []) key = __init__ environ ip p None key /\
  __init__ environ ip p id (Some []) = __init__ environ ip p id None /\
  server_ip (__init__ environ (Some []) p id key) = SERVER_IP /\
  port (__init__ environ ip (Some 0) id key) = PORT /\
  app_id (__init__ environ ip p (Some []) key) = APP_ID /\
  app_key (__init__ environ ip p id (Some [])) = APP_KEY environ.
Proof. repeat split. Qed.

Example init_empty_key_takes_environment :
  app_key (__init__ [(lit "PYCHAT_APP_KEY", lit "s3cret")]
                    None None None (Some [])) = Some (lit "s3cret").
Proof. reflexivity. Qed.

Example init_keeps_given_arguments :
  let o := api_test in
  server_ip o = lit "127.0.0.1" /\ port o = 5000 /\
  app_id o = lit "MZFiLAzmJu" /\ app_key o = Some (lit "vUCiKf167oNUfpdbsxKs") /\
  connected o = false /\ username o = [] /\ session o = JStr [] /\
  exception_stack o = [].
Proof. repeat split. Qed.

Lemma gen_salt_run (w : World) :
  _gen_salt w =
  (Ok (Text.str_of_int (1 + entropy w (draws w) mod 100000)), drew w).
Proof. reflexivity. Qed.

Lemma salt_range (r : Z) : 1 <= 1 + r mod 100000 <= 100000.
Proof. pose proof (Z.mod_pos_bound r 100000 ltac:(lia)). lia. Qed.

(** C9. Every call of the salt generator returns the decimal numeral of
    an integer between 1 and 100000 inclusive: digits only, no leading
    zero, and reading it back gives the integer. *)
Theorem gen_salt_decimal_in_range (w : World) :
  exists n : Z,
    1 <= n <= 100000 /\
    _gen_salt w = (Ok (Text.str_of_int n), drew w) /\
    forallb Text.is_digit (Text.str_of_int n) = true /\
    hd 0 (Text.str_of_int n) <> 48 /\
    Text.int_of_digits (Text.str_of_int n) = n.
Proof.
  exists (1 + entropy w (draws w) mod 100000).
  pose proof (salt_range (entropy w (draws w))) as Hn.
  split; [exact Hn|]. split; [apply gen_salt_run|].
  split; [apply TextFacts.str_of_int_digits; lia|].
  split; [|apply TextFacts.str_of_int_value; lia].
  rewrite TextFacts.str_of_int_nonneg by lia.
  pose proof (TextFacts.digits_leading
                (S (Z.to_nat (1 + entropy w (draws w) mod 100000)))
                (1 + entropy w (draws w) mod 100000) []) as Hd.
  lia.
Qed.

(** Both ends of the range are reached. *)
Example gen_salt_low (o : ChatAPI) (rs : nat -> outcome json) :
  fst (_gen_salt {| self := o; entropy := fun _ => 0; draws := 0;
                    replies := rs; sent := 0;
                    clock := fun _ _ => true; naps := 0; log := [] |})
  = Ok (lit "1").
Proof. reflexivity. Qed.

Example gen_salt_high (o : ChatAPI) (rs : nat -> outcome json) :
  fst (_gen_salt {| self := o; entropy := fun _ => 99999; draws := 0;
                    replies := rs; sent := 0;
                    clock := fun _ _ => true; naps := 0; log := [] |})
  = Ok (lit "100000").
Proof. vm_compute. reflexivity. Qed.

(* ================================================================== *)
(** ** The public operations *)

Lemma invoke_run (c : call) (w : World) :
  let salt := Text.str_of_int (1 + entropy w (draws w) mod 100000) in
  let me := self w in
  let fields := Spec.signed_fields c (session me) (JStr salt) in
  invoke c w =
  match _get_sign me fields with
  | Raise e => (Raise e, logged [Sign fields] (drew w))
  | Ok sig =>
      let w2 :=
        answered
          (logged [Request (request_url me (api_name c)) (payload c me salt sig)]
             (logged [Sign fields] (drew w))) in
      match replies w (sent w) with
      | Raise e => (Raise e, w2)
      | Ok result => conclude c result w2
      end
  end.
Proof.
  destruct c; cbv zeta;
    cbv [invoke register_user login_user heartbeat get_user_info
         change_password send_direct_message get_direct_message
         send_group_message get_group_message get_group_info register_group
         bind _gen_salt randint ret this call_get_sign emit lift
         _send_request Spec.signed_fields api_name payload];
    cbn [Z.leb Z.sub Z.add Z.compare Z.opp Z.pos_sub Pos.add Pos.succ
         Pos.pred_double Pos.compare Pos.compare_cont Z.succ_double Z.pred_double
         Z.double self session app_id logged drew];
    destruct (_get_sign _ _); try reflexivity.
Qed.

Import Aux.

Lemma signable_fields_strs (fields : list json) :
  forallb signable_field fields = true ->
  exists strs, fields = map JStr strs /\
               Text.encodable (concat strs) = true.
Proof.
  induction fields as [|v fields IH]; cbn [forallb]; intros H.
  - exists []. split; reflexivity.
  - apply andb_true_iff in H. destruct H as [Hv Hrest].
    destruct (IH Hrest) as [strs [-> Henc]].
    destruct v; try discriminate.
    exists (s :: strs). split; [reflexivity|].
    cbn [concat]. rewrite TextFacts.encodable_app, Henc.
    cbn [signable_field] in Hv. rewrite Hv. reflexivity.
Qed.

Lemma get_sign_ok (o : ChatAPI) (key : pystr) (fields : list json) :
  app_key o = Some key ->
  Text.encodable (app_id o) = true -> Text.encodable key = true ->
  forallb signable_field fields = true ->
  exists strs bytes,
    fields = map JStr strs /\
    Text.encode (app_id o ++ key ++ concat strs) = Some bytes /\
    _get_sign o fields = Ok (Sha256.hexdigest bytes).
Proof.
  intros Hkey Hid Hk Hfields.
  destruct (signable_fields_strs fields Hfields) as [strs [-> Henc]].
  destruct (TextFacts.encodable_encode (app_id o ++ key ++ concat strs))
    as [bytes Hbytes].
  { rewrite !TextFacts.encodable_app, Hid, Hk, Henc. reflexivity. }
  exists strs, bytes. split; [reflexivity|]. split; [assumption|].
  rewrite (get_sign_strs o key strs Hkey), Hbytes. reflexivity.
Qed.

Lemma signed_fields_salt (c : call) (s : json) (salt : pystr) :
  forallb signable_field (Spec.signed_fields c s (JStr [])) = true ->
  Text.encodable salt = true ->
  forallb signable_field (Spec.signed_fields c s (JStr salt)) = true.
Proof.
  intros H Hsalt.
  destruct c; cbn [Spec.signed_fields forallb] in *;
    repeat match goal with
           | H : _ && _ = true |- _ => apply andb_true_iff in H; destruct H
           end;
    repeat (apply andb_true_iff; split); assumption.
Qed.

Lemma signable_get_sign (o : ChatAPI) (c : call) (n : Z) :
  signable o c = true ->
  exists key strs bytes,
    app_key o = Some key /\
    Spec.signed_fields c (session o) (JStr (Text.str_of_int n)) = map JStr strs /\
    Text.encode (app_id o ++ key ++ concat strs) = Some bytes /\
    _get_sign o (Spec.signed_fields c (session o) (JStr (Text.str_of_int n)))
      = Ok (Sha256.hexdigest bytes).
Proof.
  unfold signable. destruct (app_key o) as [key|] eqn:Hkey; [|discriminate].
  intros H. apply andb_true_iff in H. destruct H as [H Hf].
  apply andb_true_iff in H. destruct H as [Hid Hk].
  pose proof (signed_fields_salt c (session o) (Text.str_of_int n) Hf
                (TextFacts.str_of_int_encodable n)) as Hf'.
  destruct (get_sign_ok o key _ Hkey Hid Hk Hf') as [strs [bytes [E [Hb Hs]]]].
  exists key, strs, bytes. repeat split; assumption.
Qed.

Lemma conclude_failure (c : call) (kvs : list (pystr * json))
    (st no info : json) (w : World) :
  lookup (lit "status") kvs = Some st -> eq_zero st = false ->
  lookup (lit "err_no") kvs = Some no ->
  lookup (lit "err_info") kvs = Some info ->
  conclude c (JDict kvs) w =
  (Ok JNull,
   with_self (push_exception {| err_no := no; err_info := info |} (self w))
             (logged [Warning no info] w)).
Proof.
  intros Hst Hz Hno Hinfo.
  unfold conclude, bind, lift, getitem. rewrite Hst, Hz.
  unfold _handle_exception, bind, lift, getitem. rewrite Hno, Hinfo.
  reflexivity.
Qed.

Lemma conclude_login (u p : pystr) (i : Z) (kvs : list (pystr * json))
    (st token : json) (w : World) :
  lookup (lit "status") kvs = Some st -> eq_zero st = true ->
  lookup (lit "session") kvs = Some token ->
  conclude (LoginUser u p i) (JDict kvs) w =
  (Ok JNull,
   logged (if i >? 0 then [ThreadStart i] else [])
     (with_self (set_session token (set_username u (set_connected true (self w)))) w)).
Proof.
  intros Hst Hz Htok.
  unfold conclude, bind, lift, getitem. rewrite Hst, Hz.
  unfold on_success, bind, lift, getitem, assign. rewrite Htok.
  destruct (i >? 0); cbn.
  - reflexivity.
  - unfold logged, with_self. cbn. rewrite app_nil_r. reflexivity.
Qed.

(** C4. For every public operation, when the server's reply has a status
    other than zero (and carries [err_no] and [err_info], as failure
    replies do), the call does not raise: it returns [None], appends
    exactly one record with that code and message to the error history,
    and leaves the connected flag, the user name and the session token
    as they were. *)
Theorem failure_status_is_recorded
    (c : call) (w : World) (kvs : list (pystr * json)) (st no info : json) :
  signable (self w) c = true ->
  replies w (sent w) = Ok (JDict kvs) ->
  lookup (lit "status") kvs = Some st -> eq_zero st = false ->
  lookup (lit "err_no") kvs = Some no ->
  lookup (lit "err_info") kvs = Some info ->
  exists w',
    invoke c w = (Ok JNull, w') /\
    exception_stack (self w') =
      exception_stack (self w) ++ [{| err_no := no; err_info := info |}] /\
    connected (self w') = connected (self w) /\
    username (self w') = username (self w) /\
    session (self w') = session (self w).
Proof.
  intros Hsig Hreply Hst Hz Hno Hinfo.
  destruct (signable_get_sign (self w) c (1 + entropy w (draws w) mod 100000) Hsig)
    as [key [strs [bytes [_ [_ [_ Hs]]]]]].
  rewrite invoke_run. cbv zeta. rewrite Hs, Hreply.
  rewrite (conclude_failure c kvs st no info _ Hst Hz Hno Hinfo).
  eexists. split; [reflexivity|]. repeat split.
Qed.

(** C3. When [login_user] receives a reply with status zero, it sets
    [connected], stores the user name it was given and the session token
    exactly as the server sent it, and starts one heartbeat thread when
    [heartbeat_interval > 0] and none otherwise. *)
Theorem login_success_sets_session
    (username_ password : pystr) (heartbeat_interval : Z) (w : World)
    (kvs : list (pystr * json)) (st token : json) :
  signable (self w) (LoginUser username_ password heartbeat_interval) = true ->
  replies w (sent w) = Ok (JDict kvs) ->
  lookup (lit "status") kvs = Some st -> eq_zero st = true ->
  lookup (lit "session") kvs = Some token ->
  exists w' salt sig,
    fst (_gen_salt w) = Ok salt /\
    _get_sign (self w) [JStr username_; JStr password; JStr salt] = Ok sig /\
    login_user username_ password heartbeat_interval w = (Ok JNull, w') /\
    connected (self w') = true /\
    username (self w') = username_ /\
    session (self w') = token /\
    exception_stack (self w') = exception_stack (self w) /\
    log w' =
      log w ++
      Sign [JStr username_; JStr password; JStr salt]
      :: Request (request_url (self w) (lit "login_user"))
           (payload (LoginUser username_ password heartbeat_interval)
                    (self w) salt sig)
      :: (if heartbeat_interval >? 0 then [ThreadStart heartbeat_interval]
          else []).
Proof.
  intros Hsig Hreply Hst Hz Htok.
  destruct (signable_get_sign (self w) _ (1 + entropy w (draws w) mod 100000) Hsig)
    as [key [strs [bytes [_ [_ [_ Hs]]]]]].
  change (login_user username_ password heartbeat_interval)
    with (invoke (LoginUser username_ password heartbeat_interval)).
  rewrite invoke_run. cbv zeta. rewrite Hs, Hreply.
  rewrite (conclude_login username_ password heartbeat_interval kvs st token _ Hst Hz Htok).
  eexists. exists (Text.str_of_int (1 + entropy w (draws w) mod 100000)).
  exists (Sha256.hexdigest bytes).
  split; [reflexivity|]. split; [exact Hs|]. split; [reflexivity|].
  cbn [self log logged with_self answered drew set_session set_username
       set_connected connected username session exception_stack].
  repeat split.
  rewrite <- !app_assoc. reflexivity.
Qed.

Ltac quiet_tail :=
  first [ exists (@nil event); split;
          [cbn; rewrite app_nil_r; reflexivity | reflexivity]
        | eexists [_]; split; [cbn; reflexivity | reflexivity] ].

(** After the request, a method logs at most a warning or a thread. *)
Lemma conclude_quiet (c : call) (result : json) (w : World) :
  exists rest,
    log (snd (conclude c result w)) = log w ++ rest /\
    forallb quiet rest = true.
Proof.
  unfold conclude, bind, lift.
  destruct (getitem result (lit "status")) as [st|e]; [|quiet_tail].
  destruct (eq_zero st).
  - destruct c; unfold on_success, bind, lift, assign, ret; try quiet_tail.
    destruct (getitem result (lit "session")); [|quiet_tail].
    destruct (heartbeat_interval >? 0); quiet_tail.
  - unfold _handle_exception, bind, lift.
    destruct (getitem result (lit "err_no")); [|quiet_tail].
    destruct (getitem result (lit "err_info")); quiet_tail.
Qed.

Lemma quiet_no_sign (rest : list event) :
  forallb quiet rest = true ->
  forall e, In e rest -> quiet e = true.
Proof. intros H e He. exact (proj1 (forallb_forall quiet rest) H e He). Qed.

(** What one call logs: the signature call, then, if a signature came
    out, the request, then at most a warning or a thread. *)
Lemma invoke_log (c : call) (w : World) :
  let salt := Text.str_of_int (1 + entropy w (draws w) mod 100000) in
  let me := self w in
  let fields := Spec.signed_fields c (session me) (JStr salt) in
  match _get_sign me fields with
  | Raise e =>
      invoke c w = (Raise e, logged [Sign fields] (drew w))
  | Ok sig =>
      exists rest,
        log (snd (invoke c w)) =
          log w ++ Sign fields
                :: Request (request_url me (api_name c)) (payload c me salt sig)
                :: rest /\
        forallb quiet rest = true
  end.
Proof.
  cbv zeta. rewrite invoke_run. cbv zeta.
  destruct (_get_sign _ _) as [sig|e]; [|reflexivity].
  destruct (replies w (sent w)) as [result|e].
  - match goal with
    | |- context [conclude c result ?w2] =>
        destruct (conclude_quiet c result w2) as [rest [Hlog Hq]]
    end.
    exists rest. split; [|exact Hq].
    rewrite Hlog. cbn [log answered logged drew].
    rewrite <- !app_assoc. reflexivity.
  - exists []. split; [|reflexivity].
    cbn [snd log answered logged drew]. rewrite <- !app_assoc. reflexivity.
Qed.

Lemma payload_entries (c : call) (me : ChatAPI) (salt sig : pystr) :
  lookup (lit "app_id") (payload c me salt sig) = Some (JStr (app_id me)) /\
  lookup (lit "salt") (payload c me salt sig) = Some (JStr salt) /\
  lookup (lit "sign") (payload c me salt sig) = Some (JStr sig) /\
  (Spec.authenticated c = true ->
   lookup (lit "session") (payload c me salt sig) = Some (session me)) /\
  (forall g, gid_of c = Some g ->
   lookup (lit "gid") (payload c me salt sig) = Some (JStr (Text.str_of_int g))).
Proof.
  destruct c; repeat split; try reflexivity; try discriminate;
    intros g [= <-]; reflexivity.
Qed.

Lemma signed_fields_order (c : call) (s salt : json) :
  last (Spec.signed_fields c s salt) JNull = salt /\
  (Spec.authenticated c = true -> hd JNull (Spec.signed_fields c s salt) = s) /\
  (forall g, gid_of c = Some g ->
   nth 1 (Spec.signed_fields c s salt) JNull = JStr (Text.str_of_int g)).
Proof.
  destruct c; repeat split; try reflexivity; try discriminate;
    intros g [= <-]; reflexivity.
Qed.

(** C2. For every public operation the signature function is called
    once, on the fields of the specification's table in that order: the
    session first for authenticated operations, the salt last, [gid] as
    its decimal string both among the signed fields and in the request
    body, whose [sign] entry is the signature of those fields. In
    particular [get_user_info] signs (session, username, salt) and
    [send_group_message] signs (session, str(gid), message, salt). *)
Theorem signed_fields_follow_the_table (c : call) (w : World) :
  exists salt : pystr,
    fst (_gen_salt w) = Ok salt /\
    let me := self w in
    let fields := Spec.signed_fields c (session me) (JStr salt) in
    (exists rest,
       log (snd (invoke c w)) = log w ++ Sign fields :: rest /\
       forall args, ~ In (Sign args) rest) /\
    last fields JNull = JStr salt /\
    (Spec.authenticated c = true -> hd JNull fields = session me) /\
    (forall g, gid_of c = Some g ->
       nth 1 fields JNull = JStr (Text.str_of_int g)) /\
    (forall sig, _get_sign me fields = Ok sig ->
       exists data rest,
         log (snd (invoke c w)) =
           log w ++ Sign fields
                 :: Request (request_url me (api_name c)) data :: rest /\
         forallb quiet rest = true /\
         lookup (lit "salt") data = Some (JStr salt) /\
         lookup (lit "sign") data = Some (JStr sig) /\
         (Spec.authenticated c = true ->
            lookup (lit "session") data = Some (session me)) /\
         (forall g, gid_of c = Some g ->
            lookup (lit "gid") data = Some (JStr (Text.str_of_int g)))) /\
    (forall u, c = GetUserInfo u ->
       exists rest,
         log (snd (get_user_info u w)) =
           log w ++ Sign [session me; JStr u; JStr salt] :: rest) /\
    (forall g m, c = SendGroupMessage g m ->
       exists rest,
         log (snd (send_group_message g m w)) =
           log w ++ Sign [session me; JStr (Text.str_of_int g); JStr m; JStr salt]
                 :: rest).
Proof.
  exists (Text.str_of_int (1 + entropy w (draws w) mod 100000)).
  split; [reflexivity|]. cbv zeta.
  pose proof (invoke_log c w) as Hlog. cbv zeta in Hlog.
  set (salt := Text.str_of_int (1 + entropy w (draws w) mod 100000)) in *.
  set (fields := Spec.signed_fields c (session (self w)) (JStr salt)) in *.
  assert (Hone : exists rest,
             log (snd (invoke c w)) = log w ++ Sign fields :: rest /\
             forall args, ~ In (Sign args) rest).
  { destruct (_get_sign (self w) fields) as [sig|e].
    - destruct Hlog as [rest [Hl Hq]]. eexists. split; [exact Hl|].
      intros args [Habs|Hin]; [discriminate|].
      apply (quiet_no_sign rest Hq) in Hin. discriminate.
    - rewrite Hlog. exists []. split; [reflexivity|]. intros args [].  }
  destruct (signed_fields_order c (session (self w)) (JStr salt)) as [Hlast [Hhd Hgid]].
  split; [exact Hone|]. split; [exact Hlast|]. split; [exact Hhd|].
  split; [exact Hgid|]. split; [|split].
  - intros sig Hsig. rewrite Hsig in Hlog. destruct Hlog as [rest [Hl Hq]].
    destruct (payload_entries c (self w) salt sig) as [_ [Hs [Hg [Ha Hd]]]].
    exists (payload c (self w) salt sig), rest.
    repeat split; assumption.
  - intros u ->. destruct Hone as [rest [Hl _]]. exists rest. exact Hl.
  - intros g m ->. destruct Hone as [rest [Hl _]]. exists rest. exact Hl.
Qed.

(** C8. [register_group] sends its request to the endpoint
    [get_group_info], with the signature of
    (session, group_name, description, salt). *)
Theorem register_group_calls_get_group_info
    (group_name description : pystr) (w : World) :
  signable (self w) (RegisterGroup group_name description) = true ->
  exists salt sig rest,
    fst (_gen_salt w) = Ok salt /\
    _get_sign (self w)
      [session (self w); JStr group_name; JStr description; JStr salt] = Ok sig /\
    log (snd (register_group group_name description w)) =
      log w ++
      Sign [session (self w); JStr group_name; JStr description; JStr salt]
      :: Request
           (PROTOCOL ++ lit "://" ++ server_ip (self w) ++ lit ":"
              ++ Text.str_of_int (port (self w))
              ++ lit "/api/v1/" ++ lit "get_group_info")
           [ (lit "app_id", JStr (app_id (self w)));
             (lit "session", session (self w));
             (lit "group_name", JStr group_name);
             (lit "description", JStr description);
             (lit "salt", JStr salt);
             (lit "sign", JStr sig) ]
      :: rest /\
    forallb quiet rest = true.
Proof.
  intros Hsig.
  destruct (signable_get_sign (self w) _ (1 + entropy w (draws w) mod 100000) Hsig)
    as [key [strs [bytes [_ [_ [_ Hs]]]]]].
  pose proof (invoke_log (RegisterGroup group_name description) w) as Hlog.
  cbv zeta in Hlog. rewrite Hs in Hlog. destruct Hlog as [rest [Hl Hq]].
  exists (Text.str_of_int (1 + entropy w (draws w) mod 100000)),
         (Sha256.hexdigest bytes), rest.
  split; [reflexivity|]. split; [exact Hs|]. split; [exact Hl|exact Hq].
Qed.

(* ================================================================== *)
(** ** Signing without a key *)

(** C7, as stated, fails when the key is unset: [app_id + app_key] raises
    [TypeError], no signature comes out and no request is sent. *)
Lemma unset_key_signing_raises :
  app_key keyless = None /\
  _get_sign keyless [JStr []; JStr (lit "alice"); JStr (lit "77")]
    = Raise TypeError /\
  get_user_info (lit "alice")
    (world_of keyless (fun _ => Ok (JDict [(lit "status", JInt 0)]))) =
  (Raise TypeError,
   logged [Sign [JStr []; JStr (lit "alice"); JStr (lit "77")]]
     (drew (world_of keyless (fun _ => Ok (JDict [(lit "status", JInt 0)]))))).
Proof. repeat split. Qed.

(** C7, amended. When the application key is the empty string, signing
    does not fail fast: [_get_sign] returns the SHA-256 signature of the
    application id followed by the fields, the same at every call, the
    request is sent with it, and a failure reply of the server is
    recorded as an application-level error. *)
Theorem empty_key_still_signs (c : call) (w : World) :
  app_key (self w) = Some [] ->
  signable (self w) c = true ->
  exists salt strs bytes rest,
    fst (_gen_salt w) = Ok salt /\
    Spec.signed_fields c (session (self w)) (JStr salt) = map JStr strs /\
    Text.encode (app_id (self w) ++ concat strs) = Some bytes /\
    _get_sign (self w) (map JStr strs) = Ok (Sha256.hexdigest bytes) /\
    log (snd (invoke c w)) =
      log w ++ Sign (map JStr strs)
            :: Request (request_url (self w) (api_name c))
                 (payload c (self w) salt (Sha256.hexdigest bytes))
            :: rest /\
    forallb quiet rest = true /\
    (forall kvs st no info,
       replies w (sent w) = Ok (JDict kvs) ->
       lookup (lit "status") kvs = Some st -> eq_zero st = false ->
       lookup (lit "err_no") kvs = Some no ->
       lookup (lit "err_info") kvs = Some info ->
       exists w',
         invoke c w = (Ok JNull, w') /\
         exception_stack (self w') =
           exception_stack (self w) ++ [{| err_no := no; err_info := info |}]).
Proof.
  intros Hkey Hsig.
  destruct (signable_get_sign (self w) c (1 + entropy w (draws w) mod 100000) Hsig)
    as [key [strs [bytes [Hk [Hf [Hb Hs]]]]]].
  rewrite Hkey in Hk. injection Hk as <-. cbn [app] in Hb.
  pose proof (invoke_log c w) as Hlog. cbv zeta in Hlog.
  rewrite Hs in Hlog. destruct Hlog as [rest [Hl Hq]].
  exists (Text.str_of_int (1 + entropy w (draws w) mod 100000)), strs, bytes, rest.
  split; [reflexivity|]. split; [exact Hf|]. split; [exact Hb|].
  split; [rewrite <- Hf; exact Hs|]. split; [rewrite <- Hf; exact Hl|].
  split; [exact Hq|].
  intros kvs st no info Hreply Hst Hz Hno Hinfo.
  rewrite invoke_run. cbv zeta. rewrite Hs, Hreply.
  rewrite (conclude_failure c kvs st no info _ Hst Hz Hno Hinfo).
  eexists. split; reflexivity.
Qed.

(* ================================================================== *)
(** ** What a signature tells apart *)

Lemma concat_single_change (pre post : list pystr) (x y : pystr) :
  x <> y -> concat (pre ++ x :: post) <> concat (pre ++ y :: post).
Proof.
  intros Hxy E. rewrite !concat_app in E. cbn [concat] in E.
  apply app_inv_head, app_inv_tail in E. contradiction.
Qed.

(** C6, as stated, fails for a swap: without a delimiter the fields
    "a", "aa" and "aa", "a" concatenate to the same text and get the same
    signature. *)
Lemma swapped_fields_same_signature :
  [lit "a"; lit "aa"] <> [lit "aa"; lit "a"] /\
  _get_sign api_test (map JStr [lit "a"; lit "aa"]) =
  _get_sign api_test (map JStr [lit "aa"; lit "a"]) /\
  _get_sign api_test (map JStr [lit "a"; lit "aa"]) =
  Ok (lit "d571128dcf553c0899e82749948032a7bac7e158b0504877da5169fa7661e273").
Proof.
  split; [discriminate|]. split; vm_compute; reflexivity.
Qed.

(** C6, amended. For a fixed application id and key, two lists of fields
    get the same signature exactly when SHA-256 gives the same digest for
    the UTF-8 bytes of [appId || appKey || fields]; those bytes differ
    exactly when the concatenations of the fields differ. So changing one
    field always changes the bytes that are hashed, and swapping two
    fields changes them unless the concatenation stays the same. *)
Theorem signature_separates_concatenations
    (o : ChatAPI) (key : pystr) (f1 f2 : list pystr) :
  app_key o = Some key ->
  Text.encodable (app_id o ++ key ++ concat f1) = true ->
  Text.encodable (app_id o ++ key ++ concat f2) = true ->
  exists b1 b2,
    Text.encode (app_id o ++ key ++ concat f1) = Some b1 /\
    Text.encode (app_id o ++ key ++ concat f2) = Some b2 /\
    _get_sign o (map JStr f1) = Ok (Sha256.hexdigest b1) /\
    _get_sign o (map JStr f2) = Ok (Sha256.hexdigest b2) /\
    (b1 = b2 <-> concat f1 = concat f2) /\
    (_get_sign o (map JStr f1) = _get_sign o (map JStr f2) <->
     Sha256.digest b1 = Sha256.digest b2) /\
    (forall pre x y post,
       f1 = pre ++ x :: post -> f2 = pre ++ y :: post -> x <> y -> b1 <> b2) /\
    (forall pre x mid y post,
       f1 = pre ++ x :: mid ++ y :: post -> f2 = pre ++ y :: mid ++ x :: post ->
       (b1 = b2 <-> x ++ concat mid ++ y = y ++ concat mid ++ x)).
Proof.
  intros Hkey H1 H2.
  destruct (TextFacts.encodable_encode _ H1) as [b1 Hb1].
  destruct (TextFacts.encodable_encode _ H2) as [b2 Hb2].
  exists b1, b2.
  assert (Hs1 : _get_sign o (map JStr f1) = Ok (Sha256.hexdigest b1))
    by (rewrite (get_sign_strs o key f1 Hkey), Hb1; reflexivity).
  assert (Hs2 : _get_sign o (map JStr f2) = Ok (Sha256.hexdigest b2))
    by (rewrite (get_sign_strs o key f2 Hkey), Hb2; reflexivity).
  assert (Hbytes : b1 = b2 <-> concat f1 = concat f2).
  { split.
    - intros <-.
      pose proof (Utf8.encode_inj _ _ _ Hb1 Hb2) as E.
      apply app_inv_head, app_inv_head in E. exact E.
    - intros E. rewrite E in Hb1. congruence. }
  repeat split; try assumption; try (apply Hbytes).
  - rewrite Hs1, Hs2. intros [= E]. apply Sha256Facts.hexdigest_inj, E.
  - rewrite Hs1, Hs2. unfold Sha256.hexdigest. intros ->. reflexivity.
  - intros pre x y post -> -> Hxy E. apply Hbytes in E.
    exact (concat_single_change pre post x y Hxy E).
  - intros E. apply Hbytes in E. subst f1 f2.
    rewrite !concat_app in E. cbn [concat] in E.
    rewrite !concat_app in E. cbn [concat] in E.
    apply app_inv_head in E. rewrite !app_assoc in E.
    apply app_inv_tail in E. rewrite <- !app_assoc in E. exact E.
  - intros E. apply Hbytes. subst f1 f2.
    rewrite !concat_app. cbn [concat]. rewrite !concat_app. cbn [concat].
    f_equal. rewrite !app_assoc. f_equal. rewrite <- !app_assoc. exact E.
Qed.

(* ================================================================== *)
(** ** The heartbeat loop *)

Lemma requests_app (a b : list event) :
  requests (a ++ b) = (requests a + requests b)%nat.
Proof. unfold requests. rewrite filter_app, length_app. reflexivity. Qed.

Lemma pulse_app (a b : list event) : pulse (a ++ b) = pulse a ++ pulse b.
Proof.
  induction a as [|e a IH]; [reflexivity|].
  destruct e; cbn [app pulse]; rewrite IH; reflexivity.
Qed.

Lemma quiet_requests (l : list event) :
  forallb quiet l = true -> requests l = 0%nat /\ pulse l = [].
Proof.
  induction l as [|e l IH]; [split; reflexivity|].
  cbn [forallb]. intros H. apply andb_true_iff in H. destruct H as [He Hl].
  destruct (IH Hl) as [Hr Hp].
  destruct e; try discriminate; split; assumption.
Qed.

(** A heartbeat never touches the connected flag, and sends at most one
    request. *)
Lemma heartbeat_effect (w : World) :
  exists new,
    log (snd (heartbeat w)) = log w ++ new /\
    (requests new <= 1)%nat /\
    connected (self (snd (heartbeat w))) = connected (self w).
Proof.
  change heartbeat with (invoke Heartbeat).
  rewrite invoke_run. cbv zeta.
  destruct (_get_sign _ _) as [sig|e].
  2:{ eexists. split; [reflexivity|]. split; [cbn; lia|reflexivity]. }
  destruct (replies w (sent w)) as [result|e].
  2:{ eexists. split; [cbn; rewrite <- app_assoc; reflexivity|].
      split; [cbn; lia|reflexivity]. }
  unfold conclude, bind, lift.
  destruct (getitem result (lit "status")) as [st|e].
  2:{ eexists. split; [cbn; rewrite <- app_assoc; reflexivity|].
      split; [cbn; lia|reflexivity]. }
  destruct (eq_zero st).
  { eexists. split; [cbn; rewrite <- app_assoc; reflexivity|].
    split; [cbn; lia|reflexivity]. }
  unfold _handle_exception, bind, lift.
  destruct (getitem result (lit "err_no")).
  2:{ eexists. split; [cbn; rewrite <- app_assoc; reflexivity|].
      split; [cbn; lia|reflexivity]. }
  destruct (getitem result (lit "err_info")).
  2:{ eexists. split; [cbn; rewrite <- app_assoc; reflexivity|].
      split; [cbn; lia|reflexivity]. }
  eexists. split; [cbn; rewrite <- !app_assoc; reflexivity|].
  split; [cbn; lia|reflexivity].
Qed.

(** Once the loop has ended nothing more is logged. *)
Lemma ended_loop_is_silent (i : Z) (sched : list turn) :
  forall pc w, running pc = false ->
    fst (run_loop i sched pc w) = pc /\
    log (snd (run_loop i sched pc w)) = log w.
Proof.
  induction sched as [|t sched IH]; intros pc w Hpc; [split; reflexivity|].
  destruct t as [|o]; cbn [run_loop].
  - destruct pc; try discriminate; cbn [loop_step]; apply IH; reflexivity.
  - destruct (IH pc (with_self o w) Hpc) as [H1 H2]. split; assumption.
Qed.

(** What [time.sleep] can do: sleep, or raise and leave all but the count
    of its calls as it was. *)
Lemma sleep_outcome (secs : Z) (w : World) :
  sleep secs w = (Ok tt, napped (logged [Sleep secs] w)) \/
  exists e w',
    sleep secs w = (Raise e, w') /\
    log w' = log w /\ self w' = self w /\
    replies w' = replies w /\ clock w' = clock w /\ sent w' = sent w /\
    entropy w' = entropy w.
Proof.
  unfold sleep.
  destruct ((secs <? - SLEEP_MAX) || (SLEEP_MAX <? secs)).
  { right. exists OverflowError, w. repeat split. }
  destruct (secs <? 0).
  { right. exists ValueError, w. repeat split. }
  destruct (clock w (naps w) secs).
  - left. reflexivity.
  - right. exists OSError, (napped w). repeat split.
Qed.

Lemma sleep_ok (secs : Z) (w : World) :
  0 <= secs <= SLEEP_MAX ->
  clock w (naps w) secs = true ->
  sleep secs w = (Ok tt, napped (logged [Sleep secs] w)).
Proof.
  intros [H0 H1] Hc. unfold sleep.
  destruct (Z.ltb_spec secs (- SLEEP_MAX)); [unfold SLEEP_MAX in *; lia|].
  destruct (Z.ltb_spec SLEEP_MAX secs); [lia|].
  cbn [orb]. destruct (Z.ltb_spec secs 0); [lia|].
  rewrite Hc. reflexivity.
Qed.

Lemma loop_stops (i : Z) (sched : list turn) :
  forall pc w,
    connected (self w) = false ->
    others (fun o => negb (connected o)) sched = true ->
    exists new,
      log (snd (run_loop i sched pc w)) = log w ++ new /\
      (requests new <= in_flight pc)%nat /\
      ((steps_left pc <= ticks sched)%nat ->
       running (fst (run_loop i sched pc w)) = false).
Proof.
  induction sched as [|t sched IH]; intros pc w Hoff Hothers.
  - exists []. rewrite app_nil_r. split; [reflexivity|].
    split; [cbn; lia|]. destruct pc; cbn; intros; try reflexivity; lia.
  - destruct t as [|o]; cbn [run_loop others ticks] in *.
    + destruct pc; cbn [loop_step].
      * (* the test reads false: the thread returns *)
        rewrite Hoff.
        destruct (ended_loop_is_silent i sched Returned w eq_refl) as [Hpc Hlog].
        exists []. rewrite app_nil_r, Hpc, Hlog.
        split; [reflexivity|]. split; [cbn; lia|reflexivity].
      * (* the cycle in flight sends its request *)
        destruct (heartbeat_effect w) as [new1 [Hl1 [Hr1 Hc1]]].
        destruct (heartbeat w) as [[r|e] w1]; cbn [snd] in *.
        -- destruct (IH AtSleep w1) as [new2 [Hl2 [Hr2 Hend]]];
             [congruence|assumption|].
           exists (new1 ++ new2). rewrite Hl2, Hl1, <- app_assoc.
           split; [reflexivity|]. rewrite requests_app.
           cbn [in_flight steps_left] in *. split; [lia|].
           intros Hn. apply Hend. lia.
        -- destruct (ended_loop_is_silent i sched (Died e) w1 eq_refl) as [Hpc Hlog].
           exists new1. rewrite Hpc, Hlog.
           split; [assumption|]. split; [exact Hr1|reflexivity].
      * (* the cycle in flight sleeps, then the test fails *)
        destruct (sleep_outcome i w) as [Hs|(e & w' & Hs & Hl' & Hself & _)];
          rewrite Hs.
        -- destruct (IH AtTest (napped (logged [Sleep i] w)))
             as [new2 [Hl2 [Hr2 Hend]]]; [assumption|assumption|].
           exists (Sleep i :: new2). rewrite Hl2. cbn [log logged napped].
           rewrite <- app_assoc. split; [reflexivity|].
           cbn [in_flight steps_left] in *.
           split; [exact Hr2|]. intros Hn. apply Hend. lia.
        -- destruct (ended_loop_is_silent i sched (Died e) w' eq_refl)
             as [Hpc Hlog].
           exists []. rewrite app_nil_r, Hpc, Hlog, Hl'.
           split; [reflexivity|]. split; [cbn; lia|reflexivity].
      * destruct (ended_loop_is_silent i sched Returned w eq_refl) as [Hpc Hlog].
        exists []. rewrite app_nil_r, Hpc, Hlog.
        split; [reflexivity|]. split; [cbn; lia|reflexivity].
      * destruct (ended_loop_is_silent i sched (Died e) w eq_refl) as [Hpc Hlog].
        exists []. rewrite app_nil_r, Hpc, Hlog.
        split; [reflexivity|]. split; [cbn; lia|reflexivity].
    + apply andb_true_iff in Hothers. destruct Hothers as [Ho Hrest].
      apply negb_true_iff in Ho.
      destruct (IH pc (with_self o w) Ho Hrest) as [new [Hl [Hr Hend]]].
      exists new. repeat split; assumption.
Qed.

(** A heartbeat of a healthy object against a well-formed reply returns,
    after one request. *)
Lemma heartbeat_hale (w : World) :
  hale (self w) = true ->
  well_formed_reply (replies w (sent w)) = true ->
  exists w' new,
    heartbeat w = (Ok JNull, w') /\
    hale (self w') = true /\
    replies w' = replies w /\
    log w' = log w ++ new /\
    pulse new = [Beat].
Proof.
  intros Hhale Hreply.
  apply andb_true_iff in Hhale. destruct Hhale as [Hon Hsig].
  destruct (signable_get_sign (self w) Heartbeat
              (1 + entropy w (draws w) mod 100000) Hsig)
    as [key [strs [bytes [_ [_ [_ Hs]]]]]].
  change heartbeat with (invoke Heartbeat).
  rewrite invoke_run. cbv zeta. rewrite Hs.
  unfold well_formed_reply in Hreply.
  destruct (replies w (sent w)) as [[| | | | |  |kvs]|]; try discriminate.
  destruct (lookup (lit "status") kvs) as [st|] eqn:Hst; [|discriminate].
  destruct (eq_zero st) eqn:Hz.
  - unfold conclude, bind, lift, getitem. rewrite Hst, Hz.
    eexists. eexists. split; [reflexivity|].
    cbn [self log replies answered logged drew].
    split; [unfold hale; rewrite Hon, Hsig; reflexivity|].
    split; [reflexivity|]. rewrite <- app_assoc. split; reflexivity.
  - cbn [orb] in Hreply.
    destruct (lookup (lit "err_no") kvs) as [no|] eqn:Hno; [|discriminate].
    destruct (lookup (lit "err_info") kvs) as [info|] eqn:Hinfo; [|discriminate].
    rewrite (conclude_failure Heartbeat kvs st no info _ Hst Hz Hno Hinfo).
    eexists. eexists. split; [reflexivity|].
    cbn [self log replies answered logged drew with_self].
    split; [exact (proj2 (andb_true_iff _ _) (conj Hon Hsig))|].
    split; [reflexivity|]. rewrite <- !app_assoc. split; reflexivity.
Qed.

(** No call touches the platform's clock. *)
Lemma heartbeat_clock (w : World) : clock (snd (heartbeat w)) = clock w.
Proof.
  change heartbeat with (invoke Heartbeat).
  rewrite invoke_run. cbv zeta.
  destruct (_get_sign _ _) as [sig|e]; [|reflexivity].
  destruct (replies w (sent w)) as [result|e]; [|reflexivity].
  unfold conclude, bind, lift.
  destruct (getitem result (lit "status")) as [st|e]; [|reflexivity].
  destruct (eq_zero st); [reflexivity|].
  unfold _handle_exception, bind, lift.
  destruct (getitem result (lit "err_no")); [|reflexivity].
  destruct (getitem result (lit "err_info")); reflexivity.
Qed.

Lemma loop_beats (i : Z) (sched : list turn) :
  0 <= i <= SLEEP_MAX ->
  forall pc w,
    running pc = true ->
    hale (self w) = true ->
    others hale sched = true ->
    (forall n, well_formed_reply (replies w n) = true) ->
    (forall n, clock w n i = true) ->
    exists new,
      log (snd (run_loop i sched pc w)) = log w ++ new /\
      pulse new = cycle i pc (ticks sched) /\
      running (fst (run_loop i sched pc w)) = true.
Proof.
  intros Hi.
  induction sched as [|t sched IH]; intros pc w Hpc Hhale Hothers Hreplies Hclock.
  - exists []. rewrite app_nil_r. repeat split. exact Hpc.
  - destruct t as [|o]; cbn [run_loop others ticks] in *.
    + destruct pc; try discriminate; cbn [loop_step cycle].
      * assert (Hon : connected (self w) = true)
          by (apply andb_true_iff in Hhale; tauto).
        rewrite Hon. apply IH; assumption.
      * destruct (heartbeat_hale w Hhale (Hreplies (sent w)))
          as [w1 [new1 [Hrun [Hh1 [Hr1 [Hl1 Hp1]]]]]].
        pose proof (heartbeat_clock w) as Hc1.
        rewrite Hrun in *. cbn [snd] in Hc1.
        destruct (IH AtSleep w1 eq_refl Hh1 Hothers) as [new2 [Hl2 [Hp2 Hgo]]].
        { intros n. rewrite Hr1. apply Hreplies. }
        { intros n. rewrite Hc1. apply Hclock. }
        exists (new1 ++ new2). rewrite Hl2, Hl1, <- app_assoc.
        split; [reflexivity|]. rewrite pulse_app, Hp1, Hp2.
        split; [reflexivity|exact Hgo].
      * rewrite (sleep_ok i w Hi (Hclock (naps w))).
        destruct (IH AtTest (napped (logged [Sleep i] w)) eq_refl Hhale Hothers
                    Hreplies Hclock)
          as [new2 [Hl2 [Hp2 Hgo]]].
        exists (Sleep i :: new2). rewrite Hl2. cbn [log logged napped].
        rewrite <- app_assoc. split; [reflexivity|].
        cbn [pulse]. rewrite Hp2. split; [reflexivity|exact Hgo].
    + apply andb_true_iff in Hothers. destruct Hothers as [Ho Hrest].
      apply (IH pc (with_self o w) Hpc Ho Hrest Hreplies Hclock).
Qed.

Lemma cycle_full (i : Z) (n : nat) :
  cycle i AtTest (3 * n) = concat (repeat [Beat; Nap i] n).
Proof.
  induction n as [|n IH]; [reflexivity|].
  replace (3 * S n)%nat with (S (S (S (3 * n)))) by lia.
  cbn [cycle repeat concat app]. rewrite IH. reflexivity.
Qed.

(** A heartbeat shows as one request, or as nothing when signing raised. *)
Lemma heartbeat_pulse (w : World) :
  exists new,
    log (snd (heartbeat w)) = log w ++ new /\
    (pulse new = [Beat] \/
     pulse new = [] /\ exists e, fst (heartbeat w) = Raise e).
Proof.
  pose proof (invoke_log Heartbeat w) as H. cbv zeta in H.
  change (invoke Heartbeat) with heartbeat in H.
  destruct (_get_sign _ _) as [sig|e].
  - destruct H as [rest [Hl Hq]]. eexists. split; [exact Hl|]. left.
    cbn [pulse]. rewrite (proj2 (quiet_requests rest Hq)). reflexivity.
  - rewrite H. eexists. split; [reflexivity|]. right.
    split; [reflexivity|]. exists e. reflexivity.
Qed.

(** Every run shows a prefix of heartbeat, sleep, heartbeat, sleep, ...;
    all of it when the thread is still alive at the end. *)
Lemma loop_shape (i : Z) (sched : list turn) :
  forall pc w,
    exists new tail,
      log (snd (run_loop i sched pc w)) = log w ++ new /\
      cycle i pc (ticks sched) = pulse new ++ tail /\
      (running (fst (run_loop i sched pc w)) = true -> tail = []).
Proof.
  induction sched as [|t sched IH]; intros pc w.
  - exists [], []. rewrite app_nil_r. repeat split.
  - destruct t as [|o]; cbn [run_loop ticks].
    + destruct pc; cbn [loop_step cycle].
      * destruct (connected (self w)); [apply IH|].
        destruct (ended_loop_is_silent i sched Returned w eq_refl) as [Hpc Hlog].
        exists [], (cycle i AtHeartbeat (ticks sched)).
        rewrite app_nil_r, Hpc, Hlog. repeat split. discriminate.
      * destruct (heartbeat_pulse w) as [new1 [Hl1 Hp1]].
        destruct (heartbeat w) as [[r|e] w1]; cbn [fst snd] in *.
        -- destruct Hp1 as [Hp1|[_ [e He]]]; [|discriminate].
           destruct (IH AtSleep w1) as [new2 [tail [Hl2 [Hc Hgo]]]].
           exists (new1 ++ new2), tail. rewrite Hl2, Hl1, <- app_assoc.
           split; [reflexivity|]. rewrite pulse_app, Hp1, Hc.
           split; [reflexivity|exact Hgo].
        -- destruct (ended_loop_is_silent i sched (Died e) w1 eq_refl)
             as [Hpc Hlog].
           rewrite Hpc, Hlog.
           destruct Hp1 as [Hp1|[Hp1 _]].
           ++ exists new1, (cycle i AtSleep (ticks sched)). rewrite Hp1.
              repeat split; [assumption|discriminate].
           ++ exists new1, (Beat :: cycle i AtSleep (ticks sched)). rewrite Hp1.
              repeat split; [assumption|discriminate].
      * destruct (sleep_outcome i w) as [Hs|(e & w' & Hs & Hl' & _)];
          rewrite Hs.
        -- destruct (IH AtTest (napped (logged [Sleep i] w)))
             as [new2 [tail [Hl2 [Hc Hgo]]]].
           exists (Sleep i :: new2), tail. rewrite Hl2.
           cbn [log logged napped pulse].
           rewrite <- app_assoc, Hc. repeat split. exact Hgo.
        -- destruct (ended_loop_is_silent i sched (Died e) w' eq_refl)
             as [Hpc Hlog].
           exists [], (Nap i :: cycle i AtTest (ticks sched)).
           rewrite app_nil_r, Hpc, Hlog, Hl'. repeat split. discriminate.
      * destruct (ended_loop_is_silent i sched Returned w eq_refl) as [Hpc Hlog].
        exists [], []. rewrite app_nil_r, Hpc, Hlog. repeat split.
      * destruct (ended_loop_is_silent i sched (Died e) w eq_refl) as [Hpc Hlog].
        exists [], []. rewrite app_nil_r, Hpc, Hlog. repeat split.
    + apply (IH pc (with_self o w)).
Qed.

(** While the flag stays true the thread never returns: it is alive, or
    an exception has ended it. *)
Lemma loop_alive_or_dead (i : Z) (sched : list turn) :
  forall pc w,
    running pc = true ->
    connected (self w) = true ->
    others connected sched = true ->
    running (fst (run_loop i sched pc w)) = true \/
    exists e, fst (run_loop i sched pc w) = Died e.
Proof.
  induction sched as [|t sched IH]; intros pc w Hpc Hon Hothers.
  - left. exact Hpc.
  - destruct t as [|o]; cbn [run_loop others] in *.
    + destruct pc; try discriminate; cbn [loop_step].
      * rewrite Hon. apply IH; [reflexivity|assumption|assumption].
      * destruct (heartbeat_effect w) as [new1 [_ [_ Hc1]]].
        destruct (heartbeat w) as [[r|e] w1]; cbn [snd] in *.
        -- apply IH; [reflexivity|congruence|assumption].
        -- right. exists e.
           exact (proj1 (ended_loop_is_silent i sched (Died e) w1 eq_refl)).
      * destruct (sleep_outcome i w) as [Hs|(e & w' & Hs & _)]; rewrite Hs.
        -- apply IH; [reflexivity|assumption|assumption].
        -- right. exists e.
           exact (proj1 (ended_loop_is_silent i sched (Died e) w' eq_refl)).
    + apply andb_true_iff in Hothers. destruct Hothers as [Ho Hrest].
      apply (IH pc (with_self o w) Hpc Ho Hrest).
Qed.

(** C5, as stated, fails when a call of the loop raises: the server
    cannot be reached, the first heartbeat raises, and the thread is dead
    after one request although the flag is true all along; nine steps of
    a loop that kept going would show three heartbeats and three
    sleeps. *)
Lemma loop_dies_while_connected :
  fst (start_heartbeat 5 9 (world_of logged_in (fun _ => Raise URLError)))
    = Died URLError /\
  connected (self (snd (start_heartbeat 5 9
                          (world_of logged_in (fun _ => Raise URLError)))))
    = true /\
  pulse (log (snd (start_heartbeat 5 9
                     (world_of logged_in (fun _ => Raise URLError)))))
    = [Beat] /\
  cycle 5 AtTest 9 = [Beat; Nap 5; Beat; Nap 5; Beat; Nap 5].
Proof. vm_compute. repeat split. Qed.

(** C5, amended. In every run of the heartbeat loop: once the connected
    flag is false (and no thread sets it again), the loop sends no
    request after the cycle in flight, which has at most one left to
    send, and ends at its next test. What a run shows is always a prefix
    of heartbeat, sleep [heartbeat_interval], heartbeat, sleep, ... While
    the flag stays true and no call of the loop raises, the loop goes on,
    sending a heartbeat and then sleeping, again and again; an exception
    of [heartbeat] or [time.sleep] ends the thread. No call raises when
    the object can sign, every reply is well formed, the interval lies
    between 0 and [SLEEP_MAX] and the platform's clock takes it. *)
Theorem heartbeat_loop_follows_connected
    (heartbeat_interval : Z) (sched : list turn) (pc : loop_point) (w : World) :
  (connected (self w) = false ->
   others (fun o => negb (connected o)) sched = true ->
   exists new,
     log (snd (run_loop heartbeat_interval sched pc w)) = log w ++ new /\
     (requests new <= in_flight pc)%nat /\
     ((steps_left pc <= ticks sched)%nat ->
      running (fst (run_loop heartbeat_interval sched pc w)) = false))
  /\
  (exists new tail,
     log (snd (run_loop heartbeat_interval sched pc w)) = log w ++ new /\
     cycle heartbeat_interval pc (ticks sched) = pulse new ++ tail /\
     (running (fst (run_loop heartbeat_interval sched pc w)) = true ->
      tail = []))
  /\
  (running pc = true ->
   connected (self w) = true ->
   others connected sched = true ->
   (running (fst (run_loop heartbeat_interval sched pc w)) = true \/
    exists e, fst (run_loop heartbeat_interval sched pc w) = Died e) /\
   ((forall e, fst (run_loop heartbeat_interval sched pc w) <> Died e) ->
    exists new,
      log (snd (run_loop heartbeat_interval sched pc w)) = log w ++ new /\
      pulse new = cycle heartbeat_interval pc (ticks sched) /\
      running (fst (run_loop heartbeat_interval sched pc w)) = true /\
      (forall n, pc = AtTest -> ticks sched = (3 * n)%nat ->
         pulse new = concat (repeat [Beat; Nap heartbeat_interval] n))))
  /\
  (0 <= heartbeat_interval <= SLEEP_MAX ->
   (forall n, clock w n heartbeat_interval = true) ->
   running pc = true ->
   hale (self w) = true ->
   others hale sched = true ->
   (forall n, well_formed_reply (replies w n) = true) ->
   exists new,
     log (snd (run_loop heartbeat_interval sched pc w)) = log w ++ new /\
     pulse new = cycle heartbeat_interval pc (ticks sched) /\
     running (fst (run_loop heartbeat_interval sched pc w)) = true /\
     (forall n, pc = AtTest -> ticks sched = (3 * n)%nat ->
        pulse new = concat (repeat [Beat; Nap heartbeat_interval] n))).
Proof.
  split; [|split; [|split]].
  - intros Hoff Hothers. exact (loop_stops heartbeat_interval sched pc w Hoff Hothers).
  - exact (loop_shape heartbeat_interval sched pc w).
  - intros Hpc Hon Hothers.
    pose proof (loop_alive_or_dead heartbeat_interval sched pc w Hpc Hon Hothers)
      as Halive.
    split; [exact Halive|]. intros Hno.
    assert (Hgo : running (fst (run_loop heartbeat_interval sched pc w)) = true).
    { destruct Halive as [H|[e He]]; [exact H|]. destruct (Hno e He). }
    destruct (loop_shape heartbeat_interval sched pc w)
      as (new & tail & Hl & Hc & Ht).
    rewrite (Ht Hgo), app_nil_r in Hc.
    exists new. split; [exact Hl|]. split; [symmetry; exact Hc|].
    split; [exact Hgo|].
    intros n -> Hn. rewrite <- Hc, Hn. apply cycle_full.
  - intros Hi Hclock Hpc Hhale Hothers Hreplies.
    destruct (loop_beats heartbeat_interval sched Hi pc w Hpc Hhale Hothers
                Hreplies Hclock)
      as [new [Hl [Hp Hgo]]].
    exists new. split; [exact Hl|]. split; [exact Hp|]. split; [exact Hgo|].
    intros n -> Hn. rewrite Hp, Hn. apply cycle_full.
Qed.

Lemma heartbeat_loop_follows_connected_witness :
  (exists new,
     log (snd (run_loop 5 [Tick; Tick; Tick; Tick] AtHeartbeat
                 (world_of api_test accepting)))
       = log (world_of api_test accepting) ++ new /\
     (requests new <= in_flight AtHeartbeat)%nat /\
     ((steps_left AtHeartbeat <= ticks [Tick; Tick; Tick; Tick])%nat ->
      running (fst (run_loop 5 [Tick; Tick; Tick; Tick] AtHeartbeat
                      (world_of api_test accepting))) = false))
  /\
  (running (fst (run_loop 5 [Tick; Tick; Tick; Other logged_in; Tick; Tick; Tick]
                   AtTest (world_of logged_in refusing))) = true \/
   exists e, fst (run_loop 5 [Tick; Tick; Tick; Other logged_in; Tick; Tick; Tick]
                    AtTest (world_of logged_in refusing)) = Died e)
  /\
  (exists new,
     log (snd (run_loop 5 [Tick; Tick; Tick; Other logged_in; Tick; Tick; Tick]
                 AtTest (world_of logged_in refusing)))
       = log (world_of logged_in refusing) ++ new /\
     pulse new
       = cycle 5 AtTest
           (ticks [Tick; Tick; Tick; Other logged_in; Tick; Tick; Tick]) /\
     running (fst (run_loop 5 [Tick; Tick; Tick; Other logged_in; Tick; Tick; Tick]
                     AtTest (world_of logged_in refusing))) = true /\
     (forall n, AtTest = AtTest ->
        ticks [Tick; Tick; Tick; Other logged_in; Tick; Tick; Tick] = (3 * n)%nat ->
        pulse new = concat (repeat [Beat; Nap 5] n))).
Proof.
  split; [|split].
  - apply (proj1 (heartbeat_loop_follows_connected
                    5 [Tick; Tick; Tick; Tick] AtHeartbeat
                    (world_of api_test accepting))); reflexivity.
  - apply (proj1 (proj2 (proj2 (heartbeat_loop_follows_connected
                    5 [Tick; Tick; Tick; Other logged_in; Tick; Tick; Tick] AtTest
                    (world_of logged_in refusing)))));
      reflexivity.
  - apply (proj2 (proj2 (proj2 (heartbeat_loop_follows_connected
                    5 [Tick; Tick; Tick; Other logged_in; Tick; Tick; Tick] AtTest
                    (world_of logged_in refusing)))));
      [unfold SLEEP_MAX; lia | intros n; reflexivity | reflexivity | reflexivity
      | reflexivity | intros n; reflexivity].
Defined.

(** Two runs, step by step. The flag is cleared while a cycle is in
    flight: that cycle sends its request and sleeps, the next test ends
    the thread. *)
Example loop_stops_after_cycle_in_flight :
  let run := run_loop 5 [Tick; Other (set_connected false logged_in);
                         Tick; Tick; Tick; Tick; Tick]
               AtTest (world_of logged_in accepting) in
  fst run = Returned /\ pulse (log (snd run)) = [Beat; Nap 5].
Proof. vm_compute. split; reflexivity. Qed.

Example loop_keeps_beating :
  let run := start_heartbeat 5 7 (world_of logged_in refusing) in
  fst run = AtHeartbeat /\
  pulse (log (snd run)) = [Beat; Nap 5; Beat; Nap 5] /\
  length (exception_stack (self (snd run))) = 2%nat.
Proof. vm_compute. repeat split. Qed.

(** [time.sleep] refuses a negative interval: called directly with -1,
    the loop sends one heartbeat and dies. *)
Example loop_negative_interval :
  let run := start_heartbeat (-1) 5 (world_of logged_in accepting) in
  fst run = Died ValueError /\ pulse (log (snd run)) = [Beat].
Proof. vm_compute. split; reflexivity. Qed.

(** An interval beyond the clock's range ends the loop in the same way,
    with [OverflowError]. *)
Example loop_interval_too_large :
  let run := start_heartbeat 9223372037 5 (world_of logged_in accepting) in
  fst run = Died OverflowError /\ pulse (log (snd run)) = [Beat].
Proof. vm_compute. split; reflexivity. Qed.

(** A request that fails ends the thread as well. *)
Example loop_server_unreachable :
  let run := start_heartbeat 5 5 (world_of logged_in (fun _ => Raise URLError)) in
  fst run = Died URLError /\ pulse (log (snd run)) = [Beat] /\
  connected (self (snd run)) = true.
Proof. vm_compute. repeat split. Qed.

(* ================================================================== *)
(** ** The theorems at work on the demo object *)

Lemma signed_fields_follow_the_table_witness :
  exists data rest,
    log (snd (invoke (SendGroupMessage 42 (lit "hi"))
                (world_of logged_in accepting))) =
      log (world_of logged_in accepting)
      ++ Sign [JStr (lit "tok123"); JStr (lit "42"); JStr (lit "hi");
               JStr (lit "77")]
      :: Request (request_url logged_in (lit "send_group_message")) data
      :: rest /\
    lookup (lit "gid") data = Some (JStr (lit "42")) /\
    lookup (lit "sign") data =
      Some (JStr (lit "68de7085ae3e9776f3cac2515167ab198ca7696407e5162326682b007d3ff87d")).
Proof.
  destruct (signed_fields_follow_the_table
              (SendGroupMessage 42 (lit "hi")) (world_of logged_in accepting))
    as [salt [Hsalt H]].
  vm_compute in Hsalt. injection Hsalt as <-. cbv zeta in H.
  destruct H as [_ [_ [_ [_ [Hreq _]]]]].
  destruct (Hreq (lit "68de7085ae3e9776f3cac2515167ab198ca7696407e5162326682b007d3ff87d"))
    as [data [rest [Hl [_ [_ [Hsg [_ Hg]]]]]]].
  { vm_compute. reflexivity. }
  exists data, rest. split; [exact Hl|]. split; [|exact Hsg].
  exact (Hg 42 eq_refl).
Defined.

Lemma login_success_sets_session_witness :
  exists w' salt sig,
    fst (_gen_salt (world_of api_test welcoming)) = Ok salt /\
    _get_sign (self (world_of api_test welcoming))
      [JStr (lit "apitest"); JStr (lit "idk"); JStr salt] = Ok sig /\
    login_user (lit "apitest") (lit "idk") 5 (world_of api_test welcoming)
      = (Ok JNull, w') /\
    connected (self w') = true /\
    username (self w') = lit "apitest" /\
    session (self w') = JStr (lit "tok123") /\
    exception_stack (self w') = exception_stack (self (world_of api_test welcoming)) /\
    log w' =
      log (world_of api_test welcoming) ++
      Sign [JStr (lit "apitest"); JStr (lit "idk"); JStr salt]
      :: Request (request_url (self (world_of api_test welcoming)) (lit "login_user"))
           (payload (LoginUser (lit "apitest") (lit "idk") 5)
                    (self (world_of api_test welcoming)) salt sig)
      :: (if 5 >? 0 then [ThreadStart 5] else []).
Proof.
  apply (login_success_sets_session (lit "apitest") (lit "idk") 5
           (world_of api_test welcoming)
           [(lit "status", JInt 0); (lit "session", JStr (lit "tok123"))]
           (JInt 0) (JStr (lit "tok123"))); reflexivity.
Defined.

Lemma failure_status_is_recorded_witness :
  exists w',
    invoke (GetUserInfo (lit "test")) (world_of logged_in refusing)
      = (Ok JNull, w') /\
    exception_stack (self w') =
      exception_stack (self (world_of logged_in refusing))
      ++ [{| err_no := JInt 1003; err_info := JStr (lit "denied") |}] /\
    connected (self w') = connected (self (world_of logged_in refusing)) /\
    username (self w') = username (self (world_of logged_in refusing)) /\
    session (self w') = session (self (world_of logged_in refusing)).
Proof.
  apply (failure_status_is_recorded (GetUserInfo (lit "test"))
           (world_of logged_in refusing)
           [(lit "status", JInt 1); (lit "err_no", JInt 1003);
            (lit "err_info", JStr (lit "denied"))]
           (JInt 1) (JInt 1003) (JStr (lit "denied"))); reflexivity.
Defined.

Lemma register_group_calls_get_group_info_witness :
  exists salt sig rest,
    fst (_gen_salt (world_of logged_in accepting)) = Ok salt /\
    _get_sign (self (world_of logged_in accepting))
      [session (self (world_of logged_in accepting)); JStr (lit "team");
       JStr []; JStr salt] = Ok sig /\
    log (snd (register_group (lit "team") [] (world_of logged_in accepting))) =
      log (world_of logged_in accepting) ++
      Sign [session (self (world_of logged_in accepting)); JStr (lit "team");
            JStr []; JStr salt]
      :: Request
           (PROTOCOL ++ lit "://" ++ server_ip (self (world_of logged_in accepting))
              ++ lit ":"
              ++ Text.str_of_int (port (self (world_of logged_in accepting)))
              ++ lit "/api/v1/" ++ lit "get_group_info")
           [ (lit "app_id", JStr (app_id (self (world_of logged_in accepting))));
             (lit "session", session (self (world_of logged_in accepting)));
             (lit "group_name", JStr (lit "team"));
             (lit "description", JStr []);
             (lit "salt", JStr salt);
             (lit "sign", JStr sig) ]
      :: rest /\
    forallb quiet rest = true.
Proof.
  apply (register_group_calls_get_group_info (lit "team") []
           (world_of logged_in accepting)); reflexivity.
Defined.

Lemma empty_key_still_signs_witness :
  app_key empty_keyed = Some [] /\
  exists salt strs bytes,
    fst (_gen_salt (world_of empty_keyed refusing)) = Ok salt /\
    Spec.signed_fields (GetUserInfo (lit "alice"))
      (session (self (world_of empty_keyed refusing))) (JStr salt)
      = map JStr strs /\
    Text.encode (app_id (self (world_of empty_keyed refusing)) ++ concat strs)
      = Some bytes /\
    _get_sign (self (world_of empty_keyed refusing)) (map JStr strs)
      = Ok (Sha256.hexdigest bytes).
Proof.
  split; [reflexivity|].
  destruct (empty_key_still_signs (GetUserInfo (lit "alice"))
              (world_of empty_keyed refusing) eq_refl eq_refl)
    as [salt [strs [bytes [rest [H1 [H2 [H3 [H4 _]]]]]]]].
  exists salt, strs, bytes. repeat split; assumption.
Defined.

Lemma signature_separates_concatenations_witness :
  exists b1 b2,
    Text.encode (app_id api_test ++ lit "vUCiKf167oNUfpdbsxKs"
                   ++ concat [lit "alice"; lit "77"]) = Some b1 /\
    Text.encode (app_id api_test ++ lit "vUCiKf167oNUfpdbsxKs"
                   ++ concat [lit "alicf"; lit "77"]) = Some b2 /\
    b1 <> b2.
Proof.
  destruct (signature_separates_concatenations api_test
              (lit "vUCiKf167oNUfpdbsxKs")
              [lit "alice"; lit "77"] [lit "alicf"; lit "77"]
              eq_refl eq_refl eq_refl)
    as [b1 [b2 [H1 [H2 [_ [_ [_ [_ [Hchange _]]]]]]]]].
  exists b1, b2. split; [exact H1|]. split; [exact H2|].
  apply (Hchange [] (lit "alice") (lit "alicf") [lit "77"]);
    [reflexivity | reflexivity | discriminate].
Defined.

(** The scenario of the specification: after a login that returned the
    token "tok123", [get_user_info("alice")] signs (tok123, alice, salt),
    posts to [get_user_info] and returns the server's mapping as it is. *)
Example scenario_get_user_info :
  let record := JDict [(lit "status", JInt 0); (lit "username", JStr (lit "alice"));
                       (lit "role", JInt 0)] in
  let w := world_of logged_in (fun _ => Ok record) in
  fst (get_user_info (lit "alice") w) = Ok record /\
  log (snd (get_user_info (lit "alice") w)) =
    [ Sign [JStr (lit "tok123"); JStr (lit "alice"); JStr (lit "77")];
      Request (lit "http://127.0.0.1:5000/api/v1/get_user_info")
        [ (lit "app_id", JStr (lit "MZFiLAzmJu"));
          (lit "session", JStr (lit "tok123"));
          (lit "username", JStr (lit "alice"));
          (lit "salt", JStr (lit "77"));
          (lit "sign", JStr (lit "905ebfddf3ba8b913d6d20361781c0ac0e4fb4bc8104b385e15334741cfa180a")) ] ].
Proof. vm_compute. split; reflexivity. Qed.

(** A login with the heartbeat switched off starts no thread. *)
Example login_without_heartbeat :
  let run := login_user (lit "apitest") (lit "idk") (-1)
               (world_of api_test welcoming) in
  fst run = Ok JNull /\
  connected (self (snd run)) = true /\
  session (self (snd run)) = JStr (lit "tok123") /\
  filter (fun e => match e with ThreadStart _ => true | _ => false end)
         (log (snd run)) = [].
Proof. vm_compute. repeat split. Qed.

(** A reply without [err_no] makes the call raise [KeyError]. *)
Example failure_reply_without_code :
  fst (get_user_info (lit "test")
         (world_of logged_in (fun _ => Ok (JDict [(lit "status", JInt 1)]))))
  = Raise (KeyError (lit "err_no")).
Proof. vm_compute. reflexivity. Qed.

(** A reply with status zero and no token leaves the object connected
    under the new name, with the old token, and raises [KeyError]. *)
Example login_reply_without_token :
  let run := login_user (lit "apitest") (lit "idk") 5
               (world_of api_test accepting) in
  fst run = Raise (KeyError (lit "session")) /\
  connected (self (snd run)) = true /\
  username (self (snd run)) = lit "apitest" /\
  session (self (snd run)) = JStr [].
Proof. vm_compute. repeat split. Qed.

(* ================================================================== *)
(** ** More of [_get_sign] *)

Import More.

Lemma sign_str_loop_non_str (args : list json) : forall acc,
  all_str args = false -> sign_str_loop acc args = Raise TypeError.
Proof.
  induction args as [|v args IH]; intros acc H; [discriminate|].
  destruct v; try reflexivity.
  cbn [sign_str_loop]. apply IH. exact H.
Qed.

Lemma sign_str_loop_all_str (args : list json) : forall acc,
  all_str args = true -> sign_str_loop acc args = Ok (acc ++ text_of args).
Proof.
  induction args as [|v args IH]; intros acc H.
  - cbn. rewrite app_nil_r. reflexivity.
  - destruct v; try discriminate.
    cbn [sign_str_loop]. rewrite (IH (acc ++ s) H).
    unfold text_of. cbn [map concat]. rewrite <- app_assoc. reflexivity.
Qed.

(** X1. A field that is not a [str] makes [_get_sign] raise [TypeError],
    whatever the key and the other fields are. *)
Theorem get_sign_rejects_non_str (me : ChatAPI) (args : list json) :
  all_str args = false -> _get_sign me args = Raise TypeError.
Proof.
  intros H. unfold _get_sign. destruct (app_key me) as [key|]; [|reflexivity].
  rewrite (sign_str_loop_non_str args (app_id me ++ key) H). reflexivity.
Qed.

Lemma get_sign_rejects_non_str_witness :
  _get_sign api_test [JStr (lit "alice"); JInt 7; JStr (lit "77")]
  = Raise TypeError.
Proof.
  apply (get_sign_rejects_non_str api_test
           [JStr (lit "alice"); JInt 7; JStr (lit "77")]).
  reflexivity.
Defined.

(** X2. [_get_sign] returns a signature exactly when a key is set, every
    field is a [str] and the whole text has a UTF-8 encoding; it raises
    [TypeError] when the key is unset or a field is not a [str],
    [UnicodeEncodeError] otherwise, and nothing else. *)
Theorem get_sign_outcomes (me : ChatAPI) (args : list json) :
  match _get_sign me args with
  | Ok s =>
      exists key bytes,
        app_key me = Some key /\ all_str args = true /\
        Text.encode (app_id me ++ key ++ text_of args) = Some bytes /\
        s = Sha256.hexdigest bytes
  | Raise TypeError => app_key me = None \/ all_str args = false
  | Raise UnicodeEncodeError =>
      exists key,
        app_key me = Some key /\ all_str args = true /\
        Text.encodable (app_id me ++ key ++ text_of args) = false
  | Raise _ => False
  end.
Proof.
  unfold _get_sign. destruct (app_key me) as [key|]; [|left; reflexivity].
  destruct (all_str args) eqn:Hall.
  - rewrite (sign_str_loop_all_str args (app_id me ++ key) Hall).
    rewrite <- app_assoc.
    destruct (Text.encode (app_id me ++ key ++ text_of args)) as [bytes|] eqn:He.
    + exists key, bytes. repeat split; assumption.
    + exists key. repeat split; try assumption.
      destruct (Text.encodable (app_id me ++ key ++ text_of args)) eqn:Hb;
        [|reflexivity].
      destruct (TextFacts.encodable_encode _ Hb) as [bs Hbs]. congruence.
  - rewrite (sign_str_loop_non_str args (app_id me ++ key) Hall).
    right. reflexivity.
Qed.

(** X3. The signature depends on nothing but the text
    [app_id + app_key + fields]: two objects and field lists with the
    same concatenation get the same signature, wherever the boundaries
    between id, key and fields lie. *)
Theorem get_sign_depends_on_concatenation
    (o1 o2 : ChatAPI) (k1 k2 : pystr) (f1 f2 : list pystr) :
  app_key o1 = Some k1 -> app_key o2 = Some k2 ->
  app_id o1 ++ k1 ++ concat f1 = app_id o2 ++ k2 ++ concat f2 ->
  _get_sign o1 (map JStr f1) = _get_sign o2 (map JStr f2).
Proof.
  intros H1 H2 E.
  rewrite (get_sign_strs o1 k1 f1 H1), (get_sign_strs o2 k2 f2 H2), E.
  reflexivity.
Qed.

Lemma get_sign_depends_on_concatenation_witness :
  _get_sign (__init__ [] None None (Some (lit "ab")) (Some (lit "c")))
            (map JStr [lit "de"; lit "f"]) =
  _get_sign (__init__ [] None None (Some (lit "a")) (Some (lit "bcd")))
            (map JStr [lit "e"; lit "f"]).
Proof.
  apply (get_sign_depends_on_concatenation
           (__init__ [] None None (Some (lit "ab")) (Some (lit "c")))
           (__init__ [] None None (Some (lit "a")) (Some (lit "bcd")))
           (lit "c") (lit "bcd") [lit "de"; lit "f"] [lit "e"; lit "f"]);
    reflexivity.
Defined.

(* ================================================================== *)
(** ** What a call leaves untouched *)

Lemma warnings_app (a b : list event) :
  warnings (a ++ b) = (warnings a + warnings b)%nat.
Proof. unfold warnings. rewrite filter_app, length_app. reflexivity. Qed.

Ltac frame_leaf :=
  first
    [ exists (@nil event), (@nil ErrorRecord);
      cbn; rewrite ?app_nil_r; repeat split; (reflexivity || lia)
    | eexists [_], (@nil ErrorRecord);
      cbn; rewrite ?app_nil_r; repeat split; (reflexivity || lia)
    | eexists [_], [_];
      cbn; repeat split; (reflexivity || lia) ].

(** The end of a method: it reads no reply and draws nothing, keeps the
    configuration, and records an error exactly when it warns. *)
Lemma conclude_frame (c : call) (result : json) (w : World) :
  exists new recs,
    log (snd (conclude c result w)) = log w ++ new /\
    exception_stack (self (snd (conclude c result w)))
      = exception_stack (self w) ++ recs /\
    warnings new = length recs /\ (length recs <= 1)%nat /\
    requests new = 0%nat /\
    draws (snd (conclude c result w)) = draws w /\
    sent (snd (conclude c result w)) = sent w /\
    entropy (snd (conclude c result w)) = entropy w /\
    replies (snd (conclude c result w)) = replies w /\
    server_ip (self (snd (conclude c result w))) = server_ip (self w) /\
    port (self (snd (conclude c result w))) = port (self w) /\
    app_id (self (snd (conclude c result w))) = app_id (self w) /\
    app_key (self (snd (conclude c result w))) = app_key (self w) /\
    (is_login c = false ->
     connected (self (snd (conclude c result w))) = connected (self w) /\
     username (self (snd (conclude c result w))) = username (self w) /\
     session (self (snd (conclude c result w))) = session (self w)).
Proof.
  unfold conclude, bind, lift.
  destruct (getitem result (lit "status")) as [st|e]; [|frame_leaf].
  destruct (eq_zero st).
  - destruct c; unfold on_success, bind, lift, assign, ret; try frame_leaf.
    destruct (getitem result (lit "session")).
    + destruct (heartbeat_interval >? 0);
        [ eexists [_], (@nil ErrorRecord) | exists (@nil event), (@nil ErrorRecord) ];
        cbn; rewrite ?app_nil_r; repeat split; try reflexivity; try lia;
        discriminate.
    + exists (@nil event), (@nil ErrorRecord).
      cbn; rewrite ?app_nil_r; repeat split; try reflexivity; try lia;
        discriminate.
  - unfold _handle_exception, bind, lift.
    destruct (getitem result (lit "err_no")); [|frame_leaf].
    destruct (getitem result (lit "err_info")); frame_leaf.
Qed.

Lemma invoke_frame (c : call) (w : World) :
  exists new recs,
    log (snd (invoke c w)) = log w ++ new /\
    exception_stack (self (snd (invoke c w))) = exception_stack (self w) ++ recs /\
    warnings new = length recs /\ (length recs <= 1)%nat /\
    draws (snd (invoke c w)) = S (draws w) /\
    entropy (snd (invoke c w)) = entropy w /\
    replies (snd (invoke c w)) = replies w /\
    server_ip (self (snd (invoke c w))) = server_ip (self w) /\
    port (self (snd (invoke c w))) = port (self w) /\
    app_id (self (snd (invoke c w))) = app_id (self w) /\
    app_key (self (snd (invoke c w))) = app_key (self w) /\
    (is_login c = false ->
     connected (self (snd (invoke c w))) = connected (self w) /\
     username (self (snd (invoke c w))) = username (self w) /\
     session (self (snd (invoke c w))) = session (self w)) /\
    match _get_sign (self w)
            (Spec.signed_fields c (session (self w))
               (JStr (Text.str_of_int (1 + entropy w (draws w) mod 100000)))) with
    | Ok _ => sent (snd (invoke c w)) = S (sent w) /\ requests new = 1%nat
    | Raise e =>
        sent (snd (invoke c w)) = sent w /\ requests new = 0%nat /\
        fst (invoke c w) = Raise e /\ self (snd (invoke c w)) = self w
    end.
Proof.
  rewrite invoke_run. cbv zeta.
  destruct (_get_sign _ _) as [sig|e].
  2:{ eexists [_], (@nil ErrorRecord).
      cbn. rewrite app_nil_r. repeat split. lia. }
  destruct (replies w (sent w)) as [result|e].
  2:{ eexists [_; _], (@nil ErrorRecord).
      cbn. rewrite app_nil_r, <- app_assoc. repeat split. lia. }
  match goal with
  | |- context [conclude c result ?w2] =>
      destruct (conclude_frame c result w2)
        as (new & recs & Hl & Hx & Hw & Hle & Hr & Hd & Hs & He & Hrp & H1 & H2 & H3 & H4 & H5)
  end.
  eexists (_ :: _ :: new), recs.
  rewrite Hl, Hx, Hd, Hs, He, Hrp, H1, H2, H3, H4.
  cbn [log self answered logged drew draws sent entropy replies].
  rewrite <- !app_assoc.
  repeat split; try assumption; try reflexivity.
  - apply H5; assumption.
  - apply H5; assumption.
  - apply H5; assumption.
  - unfold requests in *. cbn [filter length app]. rewrite Hr. reflexivity.
Qed.

(** X4. No call changes the configuration of the object (server
    address, port, application id and key), and no call other than
    [login_user] changes the connected flag, the user name or the session
    token, whatever the server answers and whether or not the call
    raises. *)
Theorem invoke_keeps_configuration (c : call) (w : World) :
  server_ip (self (snd (invoke c w))) = server_ip (self w) /\
  port (self (snd (invoke c w))) = port (self w) /\
  app_id (self (snd (invoke c w))) = app_id (self w) /\
  app_key (self (snd (invoke c w))) = app_key (self w) /\
  (is_login c = false ->
   connected (self (snd (invoke c w))) = connected (self w) /\
   username (self (snd (invoke c w))) = username (self w) /\
   session (self (snd (invoke c w))) = session (self w)).
Proof.
  destruct (invoke_frame c w)
    as (new & recs & _ & _ & _ & _ & _ & _ & _ & H1 & H2 & H3 & H4 & H5 & _).
  repeat split; try assumption; apply H5; assumption.
Qed.

(** X5. The error history only grows: a call appends at most one record
    and removes none, and it appends one exactly when it shows a
    warning. *)
Theorem error_history_append_only (c : call) (w : World) :
  exists new recs,
    log (snd (invoke c w)) = log w ++ new /\
    exception_stack (self (snd (invoke c w))) = exception_stack (self w) ++ recs /\
    (length recs <= 1)%nat /\
    warnings new = length recs.
Proof.
  destruct (invoke_frame c w) as [new [recs [Hl [Hx [Hw [Hle _]]]]]].
  exists new, recs. repeat split; assumption.
Qed.

(** X6. Every call draws exactly one random number, and a request
    leaves the object exactly when the signature could be computed: one
    request then, and none (the call raising what [_get_sign] raised,
    the object untouched) otherwise. *)
Theorem request_needs_signature (c : call) (w : World) :
  draws (snd (invoke c w)) = S (draws w) /\
  exists salt new,
    fst (_gen_salt w) = Ok salt /\
    log (snd (invoke c w)) = log w ++ new /\
    match _get_sign (self w) (Spec.signed_fields c (session (self w)) (JStr salt)) with
    | Ok _ => sent (snd (invoke c w)) = S (sent w) /\ requests new = 1%nat
    | Raise e =>
        sent (snd (invoke c w)) = sent w /\ requests new = 0%nat /\
        fst (invoke c w) = Raise e /\ self (snd (invoke c w)) = self w
    end.
Proof.
  destruct (invoke_frame c w)
    as (new & recs & Hl & _ & _ & _ & Hd & _ & _ & _ & _ & _ & _ & _ & Hs).
  split; [exact Hd|].
  exists (Text.str_of_int (1 + entropy w (draws w) mod 100000)), new.
  split; [reflexivity|]. split; [exact Hl|exact Hs].
Qed.

(* ================================================================== *)
(** ** What a call makes of the reply *)

Lemma invoke_signed (c : call) (w : World) :
  signable (self w) c = true ->
  exists salt sig,
    fst (_gen_salt w) = Ok salt /\
    _get_sign (self w) (Spec.signed_fields c (session (self w)) (JStr salt))
      = Ok sig /\
    invoke c w =
      match replies w (sent w) with
      | Raise e => (Raise e, requested c salt sig w)
      | Ok result => conclude c result (requested c salt sig w)
      end.
Proof.
  intros Hsig.
  destruct (signable_get_sign (self w) c (1 + entropy w (draws w) mod 100000) Hsig)
    as (key & strs & bytes & _ & _ & _ & Hs).
  exists (Text.str_of_int (1 + entropy w (draws w) mod 100000)),
         (Sha256.hexdigest bytes).
  split; [reflexivity|]. split; [exact Hs|].
  rewrite invoke_run. cbv zeta. rewrite Hs. reflexivity.
Qed.

(** X7. With a status of zero every call but [login_user] leaves the
    object as it was; the eight calls that fetch or post data return the
    server's mapping unchanged, while [register_user] and [heartbeat]
    return [None] as they do on a failure. *)
Theorem success_returns_reply_unchanged
    (c : call) (w : World) (kvs : list (pystr * json)) (st : json) :
  signable (self w) c = true ->
  is_login c = false ->
  replies w (sent w) = Ok (JDict kvs) ->
  lookup (lit "status") kvs = Some st -> eq_zero st = true ->
  exists salt sig,
    fst (_gen_salt w) = Ok salt /\
    invoke c w =
      (Ok (if returns_mapping c then JDict kvs else JNull),
       requested c salt sig w) /\
    self (snd (invoke c w)) = self w.
Proof.
  intros Hsig Hlogin Hreply Hst Hz.
  destruct (invoke_signed c w Hsig) as (salt & sig & Hsalt & _ & Hrun).
  exists salt, sig. split; [exact Hsalt|].
  rewrite Hrun, Hreply. unfold conclude, bind, lift, getitem.
  rewrite Hst, Hz.
  destruct c; try discriminate; split; reflexivity.
Qed.

Lemma success_returns_reply_unchanged_witness :
  exists salt sig,
    fst (_gen_salt (world_of logged_in accepting)) = Ok salt /\
    invoke (GetGroupMessage 7) (world_of logged_in accepting) =
      (Ok (if returns_mapping (GetGroupMessage 7)
           then JDict [(lit "status", JInt 0)] else JNull),
       requested (GetGroupMessage 7) salt sig (world_of logged_in accepting)) /\
    self (snd (invoke (GetGroupMessage 7) (world_of logged_in accepting)))
      = self (world_of logged_in accepting).
Proof.
  apply (success_returns_reply_unchanged (GetGroupMessage 7)
           (world_of logged_in accepting) [(lit "status", JInt 0)] (JInt 0));
    reflexivity.
Defined.

(** X8. A reply that has no [status] makes the call raise after the
    request has left: [KeyError('status')] for a mapping without the key,
    [TypeError] for a reply that is no mapping; the object stays as it
    was and nothing is recorded. *)
Theorem reply_without_status_raises
    (c : call) (w : World) (result : json) (e : exn) :
  signable (self w) c = true ->
  replies w (sent w) = Ok result ->
  getitem result (lit "status") = Raise e ->
  exists salt sig,
    invoke c w = (Raise e, requested c salt sig w) /\
    (e = TypeError \/ e = KeyError (lit "status")) /\
    self (snd (invoke c w)) = self w /\
    sent (snd (invoke c w)) = S (sent w).
Proof.
  intros Hsig Hreply Hget.
  destruct (invoke_signed c w Hsig) as (salt & sig & _ & _ & Hrun).
  exists salt, sig.
  rewrite Hrun, Hreply. unfold conclude, bind, lift. rewrite Hget.
  split; [reflexivity|]. split; [|split; reflexivity].
  unfold getitem in Hget. destruct result; try (left; congruence).
  destruct (lookup (lit "status") kvs); [discriminate|].
  right. congruence.
Qed.

Lemma reply_without_status_raises_witness :
  exists salt sig,
    invoke (GetUserInfo (lit "alice"))
      (world_of logged_in (fun _ => Ok (JList [JInt 0])))
    = (Raise TypeError,
       requested (GetUserInfo (lit "alice")) salt sig
         (world_of logged_in (fun _ => Ok (JList [JInt 0])))) /\
    (TypeError = TypeError \/ TypeError = KeyError (lit "status")) /\
    self (snd (invoke (GetUserInfo (lit "alice"))
                 (world_of logged_in (fun _ => Ok (JList [JInt 0])))))
      = self (world_of logged_in (fun _ => Ok (JList [JInt 0]))) /\
    sent (snd (invoke (GetUserInfo (lit "alice"))
                 (world_of logged_in (fun _ => Ok (JList [JInt 0])))))
      = S (sent (world_of logged_in (fun _ => Ok (JList [JInt 0])))).
Proof.
  apply (reply_without_status_raises (GetUserInfo (lit "alice"))
           (world_of logged_in (fun _ => Ok (JList [JInt 0])))
           (JList [JInt 0]) TypeError); reflexivity.
Defined.

(** X9. A failure reply that lacks [err_no] or [err_info] makes the call
    raise [KeyError] for the first of the two that is missing; nothing is
    recorded or warned, and the object stays as it was. *)
Theorem failure_reply_without_code_raises
    (c : call) (w : World) (kvs : list (pystr * json)) (st : json) :
  signable (self w) c = true ->
  replies w (sent w) = Ok (JDict kvs) ->
  lookup (lit "status") kvs = Some st -> eq_zero st = false ->
  lookup (lit "err_no") kvs = None \/ lookup (lit "err_info") kvs = None ->
  exists salt sig,
    invoke c w =
      (Raise (KeyError (match lookup (lit "err_no") kvs with
                        | None => lit "err_no"
                        | Some _ => lit "err_info"
                        end)),
       requested c salt sig w) /\
    self (snd (invoke c w)) = self w /\
    warnings (log (requested c salt sig w)) = warnings (log w).
Proof.
  intros Hsig Hreply Hst Hz Hmiss.
  destruct (invoke_signed c w Hsig) as (salt & sig & _ & _ & Hrun).
  exists salt, sig.
  rewrite Hrun, Hreply. unfold conclude, bind, lift, getitem.
  rewrite Hst, Hz. unfold _handle_exception, bind, lift, getitem.
  assert (Hw : warnings (log (requested c salt sig w)) = warnings (log w)).
  { unfold requested. cbn [log answered logged drew].
    rewrite !warnings_app. cbn. lia. }
  destruct (lookup (lit "err_no") kvs) as [no|].
  - destruct Hmiss as [Habs|Hinfo]; [discriminate|]. rewrite Hinfo.
    repeat split. exact Hw.
  - repeat split. exact Hw.
Qed.

Lemma failure_reply_without_code_raises_witness :
  exists salt sig,
    invoke Heartbeat
      (world_of logged_in
         (fun _ => Ok (JDict [(lit "status", JInt 2); (lit "err_no", JInt 9)])))
    = (Raise (KeyError
                (match lookup (lit "err_no")
                         [(lit "status", JInt 2); (lit "err_no", JInt 9)] with
                 | None => lit "err_no"
                 | Some _ => lit "err_info"
                 end)),
       requested Heartbeat salt sig
         (world_of logged_in
            (fun _ => Ok (JDict [(lit "status", JInt 2); (lit "err_no", JInt 9)])))).
Proof.
  destruct (failure_reply_without_code_raises Heartbeat
              (world_of logged_in
                 (fun _ => Ok (JDict [(lit "status", JInt 2); (lit "err_no", JInt 9)])))
              [(lit "status", JInt 2); (lit "err_no", JInt 9)] (JInt 2)
              eq_refl eq_refl eq_refl eq_refl (or_intror eq_refl))
    as (salt & sig & H & _).
  exists salt, sig. exact H.
Defined.

(** X10. A reply to [login_user] with status zero and no [session]
    leaves the object half logged in: connected under the new user name,
    with the token it had before, no heartbeat thread started, and the
    call raises [KeyError('session')]. *)
Theorem login_reply_without_token_half_logs_in
    (username_ password : pystr) (heartbeat_interval : Z) (w : World)
    (kvs : list (pystr * json)) (st : json) :
  signable (self w) (LoginUser username_ password heartbeat_interval) = true ->
  replies w (sent w) = Ok (JDict kvs) ->
  lookup (lit "status") kvs = Some st -> eq_zero st = true ->
  lookup (lit "session") kvs = None ->
  fst (login_user username_ password heartbeat_interval w)
    = Raise (KeyError (lit "session")) /\
  connected (self (snd (login_user username_ password heartbeat_interval w)))
    = true /\
  username (self (snd (login_user username_ password heartbeat_interval w)))
    = username_ /\
  session (self (snd (login_user username_ password heartbeat_interval w)))
    = session (self w) /\
  exists new,
    log (snd (login_user username_ password heartbeat_interval w)) = log w ++ new /\
    threads new = [].
Proof.
  intros Hsig Hreply Hst Hz Htok.
  destruct (invoke_signed _ w Hsig) as (salt & sig & _ & _ & Hrun).
  change (login_user username_ password heartbeat_interval)
    with (invoke (LoginUser username_ password heartbeat_interval)).
  rewrite Hrun, Hreply. unfold conclude, bind, lift, getitem.
  rewrite Hst, Hz. unfold on_success, bind, lift, assign, getitem.
  rewrite Htok. cbn [fst snd self with_self set_username set_connected
                     connected username session log].
  repeat split.
  eexists. unfold requested. cbn [log answered logged drew with_self].
  rewrite <- !app_assoc. split; reflexivity.
Qed.

Lemma login_reply_without_token_half_logs_in_witness :
  fst (login_user (lit "apitest") (lit "idk") 5 (world_of api_test accepting))
    = Raise (KeyError (lit "session")) /\
  connected (self (snd (login_user (lit "apitest") (lit "idk") 5
                          (world_of api_test accepting)))) = true.
Proof.
  destruct (login_reply_without_token_half_logs_in
              (lit "apitest") (lit "idk") 5 (world_of api_test accepting)
              [(lit "status", JInt 0)] (JInt 0)
              eq_refl eq_refl eq_refl eq_refl eq_refl) as (H1 & H2 & _).
  split; assumption.
Defined.

(** X11. A request that fails in transport makes the call raise the
    transport's exception as it is: the request had been signed and sent,
    nothing is recorded in the error history, the object stays as it
    was. *)
Theorem transport_failure_propagates (c : call) (w : World) (e : exn) :
  signable (self w) c = true ->
  replies w (sent w) = Raise e ->
  exists salt sig,
    invoke c w = (Raise e, requested c salt sig w) /\
    self (snd (invoke c w)) = self w /\
    requests (log (requested c salt sig w)) = S (requests (log w)).
Proof.
  intros Hsig Hreply.
  destruct (invoke_signed c w Hsig) as (salt & sig & _ & _ & Hrun).
  exists salt, sig. rewrite Hrun, Hreply.
  split; [reflexivity|]. split; [reflexivity|].
  unfold requested. cbn [log answered logged drew].
  rewrite !requests_app. cbn. lia.
Qed.

Lemma transport_failure_propagates_witness :
  exists salt sig,
    invoke (SendDirectMessage (lit "bob") (lit "hi"))
      (world_of logged_in (fun _ => Raise URLError))
    = (Raise URLError,
       requested (SendDirectMessage (lit "bob") (lit "hi")) salt sig
         (world_of logged_in (fun _ => Raise URLError))).
Proof.
  destruct (transport_failure_propagates
              (SendDirectMessage (lit "bob") (lit "hi"))
              (world_of logged_in (fun _ => Raise URLError)) URLError
              eq_refl eq_refl) as (salt & sig & H & _).
  exists salt, sig. exact H.
Defined.

(* ================================================================== *)
(** ** More of the construction, the salt and the group id *)

(** X12. A new object is never built with an empty server address or a
    port of zero; it starts disconnected, with no user, an empty token
    and an empty error history. Arguments that are not empty or zero are
    kept as given, and the key can only be empty or unset when the
    environment's is. *)
Theorem init_fresh_object
    (environ : list (pystr * pystr))
    (ip : option pystr) (p : option Z) (id key : option pystr) :
  server_ip (__init__ environ ip p id key) <> [] /\
  port (__init__ environ ip p id key) <> 0 /\
  connected (__init__ environ ip p id key) = false /\
  username (__init__ environ ip p id key) = [] /\
  session (__init__ environ ip p id key) = JStr [] /\
  exception_stack (__init__ environ ip p id key) = [] /\
  (forall s, ip = Some s -> s <> [] ->
     server_ip (__init__ environ ip p id key) = s) /\
  (forall n, p = Some n -> n <> 0 -> port (__init__ environ ip p id key) = n) /\
  (forall s, id = Some s -> s <> [] ->
     app_id (__init__ environ ip p id key) = s) /\
  (forall s, key = Some s -> s <> [] ->
     app_key (__init__ environ ip p id key) = Some s) /\
  (app_key (__init__ environ ip p id key) = Some [] ->
     APP_KEY environ = Some []) /\
  (app_key (__init__ environ ip p id key) = None -> APP_KEY environ = None).
Proof.
  cbn [__init__ server_ip port connected username session exception_stack
       app_id app_key].
  repeat split.
  - destruct ip as [[|c s]|]; cbn; discriminate.
  - destruct p as [n|]; cbn; [|discriminate].
    destruct (Z.eqb_spec n 0); [discriminate|assumption].
  - intros s -> Hs. destruct s; [contradiction|reflexivity].
  - intros n -> Hn. cbn. destruct (Z.eqb_spec n 0); [contradiction|reflexivity].
  - intros s -> Hs. destruct s; [contradiction|reflexivity].
  - intros s -> Hs. destruct s; [contradiction|reflexivity].
  - destruct key as [[|c s]|]; cbn; intros H; try assumption; discriminate.
  - destruct key as [[|c s]|]; cbn; intros H; try assumption; discriminate.
Qed.


Lemma digit_run_head (s : pystr) :
  forallb Text.is_digit s = true ->
  match s with
  | c :: _ => (c =? 45) = false
  | [] => True
  end.
Proof.
  destruct s as [|c r]; [trivial|]. cbn [forallb]. intros H.
  apply andb_true_iff in H. destruct H as [Hc _].
  unfold Text.is_digit in Hc. apply andb_true_iff in Hc. destruct Hc as [H1 _].
  apply Z.leb_le in H1. apply Z.eqb_neq. lia.
Qed.

(** X21. The decimal string that stands for a group id reads back as
    that id, negative ids included, so two different ids never give the
    same string. *)
Theorem str_of_int_round_trip (n : Z) :
  int_of_str (Text.str_of_int n) = n /\
  (forall m, Text.str_of_int n = Text.str_of_int m -> n = m).
Proof.
  assert (R : forall k, int_of_str (Text.str_of_int k) = k).
  { intros k. destruct (Z.ltb_spec k 0) as [Hneg|Hpos].
    - unfold Text.str_of_int. destruct (Z.ltb_spec k 0); [|lia].
      unfold int_of_str. rewrite Z.eqb_refl.
      rewrite TextFacts.digits_value by lia. lia.
    - pose proof (TextFacts.str_of_int_digits k Hpos) as Hd.
      pose proof (TextFacts.str_of_int_value k Hpos) as Hv.
      pose proof (digit_run_head _ Hd) as Hh.
      unfold int_of_str. destruct (Text.str_of_int k) as [|c r].
      + unfold Text.int_of_digits in Hv. cbn in Hv. exact Hv.
      + rewrite Hh. exact Hv. }
  split; [apply R|].
  intros m E. rewrite <- (R n), <- (R m), E. reflexivity.
Qed.

(* ================================================================== *)
(** ** The key on the wire *)

Lemma quiet_bodies (l : list event) :
  forallb quiet l = true -> bodies l = [].
Proof.
  induction l as [|e l IH]; [reflexivity|].
  cbn [forallb]. intros H. apply andb_true_iff in H. destruct H as [He Hl].
  destruct e; try discriminate; exact (IH Hl).
Qed.

Lemma payload_without_key (c : call) (me : ChatAPI) (k : option pystr)
    (salt s1 s2 : pystr) :
  without_sign (payload c (with_app_key k me) salt s1)
  = without_sign (payload c me salt s2) /\
  lookup (lit "app_key") (payload c me salt s2) = None.
Proof. destruct c; split; reflexivity. Qed.

(** X19. The application key reaches the wire only through the
    signature: run with two different keys, a call sends to the same URL
    the same body apart from the [sign] entry, and no entry of the body
    is named after the key. *)
Theorem key_shows_only_in_sign (c : call) (w : World) (k1 k2 : pystr) :
  signable (with_app_key (Some k1) (self w)) c = true ->
  signable (with_app_key (Some k2) (self w)) c = true ->
  exists new1 new2 url body,
    log (snd (invoke c (with_self (with_app_key (Some k1) (self w)) w)))
      = log w ++ new1 /\
    log (snd (invoke c (with_self (with_app_key (Some k2) (self w)) w)))
      = log w ++ new2 /\
    bodies new1 = [(url, body)] /\
    bodies new2 = [(url, body)] /\
    lookup (lit "app_key") body = None.
Proof.
  intros H1 H2.
  set (w1 := with_self (with_app_key (Some k1) (self w)) w).
  set (w2 := with_self (with_app_key (Some k2) (self w)) w).
  destruct (signable_get_sign (self w1) c (1 + entropy w1 (draws w1) mod 100000) H1)
    as (key1 & strs1 & bytes1 & _ & _ & _ & Hs1).
  destruct (signable_get_sign (self w2) c (1 + entropy w2 (draws w2) mod 100000) H2)
    as (key2 & strs2 & bytes2 & _ & _ & _ & Hs2).
  pose proof (invoke_log c w1) as L1. cbv zeta in L1. rewrite Hs1 in L1.
  pose proof (invoke_log c w2) as L2. cbv zeta in L2. rewrite Hs2 in L2.
  destruct L1 as (rest1 & Hl1 & Hq1). destruct L2 as (rest2 & Hl2 & Hq2).
  pose proof (quiet_bodies rest1 Hq1) as Hb1.
  pose proof (quiet_bodies rest2 Hq2) as Hb2.
  set (salt := Text.str_of_int (1 + entropy w (draws w) mod 100000)).
  destruct (payload_without_key c (self w) (Some k1) salt
              (Sha256.hexdigest bytes1) (Sha256.hexdigest bytes1)) as [P1 _].
  destruct (payload_without_key c (self w) (Some k2) salt
              (Sha256.hexdigest bytes2) (Sha256.hexdigest bytes1)) as [P2 Hno].
  eexists. eexists.
  exists (request_url (self w) (api_name c)),
         (without_sign (payload c (self w) salt (Sha256.hexdigest bytes1))).
  split; [exact Hl1|]. split; [exact Hl2|].
  cbn [bodies flat_map app]. fold (bodies rest1). fold (bodies rest2).
  rewrite Hb1, Hb2.
  split; [|split].
  - change (self w1) with (with_app_key (Some k1) (self w)).
    change (entropy w1 (draws w1)) with (entropy w (draws w)).
    fold salt. rewrite P1. reflexivity.
  - change (self w2) with (with_app_key (Some k2) (self w)).
    change (entropy w2 (draws w2)) with (entropy w (draws w)).
    fold salt. rewrite P2. reflexivity.
  - assert (F : forall d, lookup (lit "app_key") d = None ->
                          lookup (lit "app_key") (without_sign d) = None).
    { induction d as [|[k v] d IH]; [reflexivity|].
      cbn [lookup without_sign filter fst].
      destruct (str_eqb (lit "app_key") k) eqn:Ek; [discriminate|].
      intros Hd. destruct (negb (str_eqb k (lit "sign"))).
      - cbn [lookup]. rewrite Ek. apply IH, Hd.
      - apply IH, Hd. }
    apply F, Hno.
Qed.

Lemma key_shows_only_in_sign_witness :
  exists new1 new2 url body,
    log (snd (invoke (GetUserInfo (lit "alice"))
                (with_self (with_app_key (Some (lit "k1"))
                              (self (world_of logged_in accepting)))
                   (world_of logged_in accepting))))
      = log (world_of logged_in accepting) ++ new1 /\
    log (snd (invoke (GetUserInfo (lit "alice"))
                (with_self (with_app_key (Some (lit "other"))
                              (self (world_of logged_in accepting)))
                   (world_of logged_in accepting))))
      = log (world_of logged_in accepting) ++ new2 /\
    bodies new1 = [(url, body)] /\
    bodies new2 = [(url, body)] /\
    lookup (lit "app_key") body = None.
Proof.
  apply (key_shows_only_in_sign (GetUserInfo (lit "alice"))
           (world_of logged_in accepting) (lit "k1") (lit "other"));
    reflexivity.
Defined.

(* ================================================================== *)
(** ** Calls one after the other *)

Lemma threads_app (a b : list event) : threads (a ++ b) = threads a ++ threads b.
Proof. unfold threads. apply flat_map_app. Qed.

(** The world after a login that the server accepted. *)
Lemma login_run (u p : pystr) (i : Z) (w : World)
    (kvs : list (pystr * json)) (st token : json) :
  signable (self w) (LoginUser u p i) = true ->
  replies w (sent w) = Ok (JDict kvs) ->
  lookup (lit "status") kvs = Some st -> eq_zero st = true ->
  lookup (lit "session") kvs = Some token ->
  exists salt sig,
    login_user u p i w =
    (Ok JNull,
     logged (if i >? 0 then [ThreadStart i] else [])
       (with_self (set_session token (set_username u (set_connected true (self w))))
          (requested (LoginUser u p i) salt sig w))).
Proof.
  intros Hsig Hreply Hst Hz Htok.
  destruct (invoke_signed _ w Hsig) as (salt & sig & _ & _ & Hrun).
  exists salt, sig.
  change (login_user u p i) with (invoke (LoginUser u p i)).
  rewrite Hrun, Hreply.
  rewrite (conclude_login u p i kvs st token
             (requested (LoginUser u p i) salt sig w) Hst Hz Htok).
  reflexivity.
Qed.

(** *** With the heartbeat thread at work in between *)

Lemma heartbeat_threads (w : World) :
  exists new, log (snd (heartbeat w)) = log w ++ new /\ threads new = [].
Proof.
  change heartbeat with (invoke Heartbeat).
  rewrite invoke_run. cbv zeta.
  destruct (_get_sign _ _) as [sig|e].
  2:{ eexists. split; reflexivity. }
  destruct (replies w (sent w)) as [result|e].
  2:{ eexists. split; [cbn; rewrite <- app_assoc; reflexivity|reflexivity]. }
  unfold conclude, bind, lift.
  destruct (getitem result (lit "status")) as [st|e].
  2:{ eexists. split; [cbn; rewrite <- app_assoc; reflexivity|reflexivity]. }
  destruct (eq_zero st).
  { eexists. split; [cbn; rewrite <- app_assoc; reflexivity|reflexivity]. }
  unfold _handle_exception, bind, lift.
  destruct (getitem result (lit "err_no")).
  2:{ eexists. split; [cbn; rewrite <- app_assoc; reflexivity|reflexivity]. }
  destruct (getitem result (lit "err_info")).
  2:{ eexists. split; [cbn; rewrite <- app_assoc; reflexivity|reflexivity]. }
  eexists. split; [cbn; rewrite <- !app_assoc; reflexivity|reflexivity].
Qed.

(** What the steps of a heartbeat thread leave as it was: the session,
    the configuration, the server's replies and the random source; and
    the thread starts no thread. *)
Lemma loop_frame (i : Z) (n : nat) : forall pc w,
  connected (self (snd (run_loop i (repeat Tick n) pc w))) = connected (self w) /\
  session (self (snd (run_loop i (repeat Tick n) pc w))) = session (self w) /\
  app_id (self (snd (run_loop i (repeat Tick n) pc w))) = app_id (self w) /\
  app_key (self (snd (run_loop i (repeat Tick n) pc w))) = app_key (self w) /\
  server_ip (self (snd (run_loop i (repeat Tick n) pc w))) = server_ip (self w) /\
  port (self (snd (run_loop i (repeat Tick n) pc w))) = port (self w) /\
  replies (snd (run_loop i (repeat Tick n) pc w)) = replies w /\
  entropy (snd (run_loop i (repeat Tick n) pc w)) = entropy w /\
  exists new,
    log (snd (run_loop i (repeat Tick n) pc w)) = log w ++ new /\
    threads new = [].
Proof.
  induction n as [|n IH]; intros pc w.
  { repeat split. exists []. rewrite app_nil_r. split; reflexivity. }
  cbn [repeat run_loop].
  destruct pc; cbn [loop_step].
  - assert (E : exists pc',
               (if connected (self w) then (AtHeartbeat, w) else (Returned, w))
               = (pc', w))
      by (destruct (connected (self w)); eauto).
    destruct E as [pc' ->]. apply IH.
  - destruct (invoke_frame Heartbeat w)
      as (new0 & recs & _ & _ & _ & _ & _ & He & Hr & H1 & H2 & H3 & H4 & H5 & _).
    destruct (H5 eq_refl) as (Hc & _ & Hs).
    destruct (heartbeat_threads w) as (new1 & Hl1 & Ht1).
    change (invoke Heartbeat) with heartbeat in *.
    destruct (heartbeat w) as [[r|e] w1]; cbn [snd] in *.
    + destruct (IH AtSleep w1)
        as (I1 & I2 & I3 & I4 & I5 & I6 & I7 & I8 & new2 & Hl2 & Ht2).
      rewrite I1, I2, I3, I4, I5, I6, I7, I8. repeat split; try assumption.
      exists (new1 ++ new2). rewrite Hl2, Hl1, <- app_assoc, threads_app, Ht1, Ht2.
      split; reflexivity.
    + destruct (IH (Died e) w1)
        as (I1 & I2 & I3 & I4 & I5 & I6 & I7 & I8 & new2 & Hl2 & Ht2).
      rewrite I1, I2, I3, I4, I5, I6, I7, I8. repeat split; try assumption.
      exists (new1 ++ new2). rewrite Hl2, Hl1, <- app_assoc, threads_app, Ht1, Ht2.
      split; reflexivity.
  - destruct (sleep_outcome i w)
      as [Hs|(e & w' & Hs & Hl' & Hself & Hr' & _ & _ & He')]; rewrite Hs.
    + destruct (IH AtTest (napped (logged [Sleep i] w)))
        as (I1 & I2 & I3 & I4 & I5 & I6 & I7 & I8 & new2 & Hl2 & Ht2).
      rewrite I1, I2, I3, I4, I5, I6, I7, I8. repeat split.
      exists (Sleep i :: new2). rewrite Hl2. cbn [log logged napped].
      rewrite <- app_assoc. split; [reflexivity|exact Ht2].
    + destruct (IH (Died e) w')
        as (I1 & I2 & I3 & I4 & I5 & I6 & I7 & I8 & new2 & Hl2 & Ht2).
      rewrite I1, I2, I3, I4, I5, I6, I7, I8, Hself, Hr', He'. repeat split.
      exists new2. rewrite Hl2, Hl'. split; [reflexivity|exact Ht2].
  - apply IH.
  - apply IH.
Qed.

Lemma signable_ext (o1 o2 : ChatAPI) (c : call) :
  app_id o1 = app_id o2 -> app_key o1 = app_key o2 -> session o1 = session o2 ->
  signable o1 c = signable o2 c.
Proof. intros Ha Hk Hs. unfold signable. rewrite Ha, Hk, Hs. reflexivity. Qed.

Lemma payload_ext (o1 o2 : ChatAPI) (c : call) (salt sig : pystr) :
  app_id o1 = app_id o2 -> session o1 = session o2 ->
  payload c o1 salt sig = payload c o2 salt sig.
Proof.
  intros Ha Hs. destruct c; unfold payload; cbv zeta; rewrite ?Ha, ?Hs; reflexivity.
Qed.

Lemma request_url_ext (o1 o2 : ChatAPI) (name : pystr) :
  server_ip o1 = server_ip o2 -> port o1 = port o2 ->
  request_url o1 name = request_url o2 name.
Proof. intros Hi Hp. unfold request_url. rewrite Hi, Hp. reflexivity. Qed.

(** X13. Nothing keeps a second login from starting a second heartbeat
    thread: after an accepted login with a positive interval, whatever
    number of steps its heartbeat thread has taken since, a second
    accepted login starts its own thread when its interval is positive,
    leaves the flag true, so that the first thread passes its next test,
    and replaces the user name and the token. *)
Theorem second_login_starts_second_thread
    (u1 p1 u2 p2 : pystr) (i1 i2 : Z) (w : World) (n : nat)
    (kvs1 kvs2 : list (pystr * json)) (st1 st2 t1 t2 : json) :
  0 < i1 ->
  signable (self w) (LoginUser u1 p1 i1) = true ->
  signable (self w) (LoginUser u2 p2 i2) = true ->
  replies w (sent w) = Ok (JDict kvs1) ->
  lookup (lit "status") kvs1 = Some st1 -> eq_zero st1 = true ->
  lookup (lit "session") kvs1 = Some t1 ->
  replies w (sent (snd (run_loop i1 (repeat Tick n) AtTest
                          (snd (login_user u1 p1 i1 w))))) = Ok (JDict kvs2) ->
  lookup (lit "status") kvs2 = Some st2 -> eq_zero st2 = true ->
  lookup (lit "session") kvs2 = Some t2 ->
  exists w2 new,
    login_user u2 p2 i2
      (snd (run_loop i1 (repeat Tick n) AtTest (snd (login_user u1 p1 i1 w))))
      = (Ok JNull, w2) /\
    connected (self w2) = true /\
    username (self w2) = u2 /\
    session (self w2) = t2 /\
    fst (loop_step i1 AtTest w2) = AtHeartbeat /\
    log w2 = log w ++ new /\
    threads new = [i1] ++ (if i2 >? 0 then [i2] else []).
Proof.
  intros Hi1 Hs1 Hs2 Hr1 Hst1 Hz1 Ht1 Hr2 Hst2 Hz2 Ht2.
  destruct (login_run u1 p1 i1 w kvs1 st1 t1 Hs1 Hr1 Hst1 Hz1 Ht1)
    as (salt1 & sig1 & Hrun1).
  rewrite Hrun1 in *. cbn [snd] in *.
  match type of Hrun1 with
  | _ = (_, ?x) => set (w1 := x) in *
  end.
  destruct (loop_frame i1 n AtTest w1)
    as (_ & F2 & F3 & F4 & _ & _ & F7 & _ & newL & HlL & HtL).
  set (w1' := snd (run_loop i1 (repeat Tick n) AtTest w1)) in *.
  assert (Hs2' : signable (self w1') (LoginUser u2 p2 i2) = true).
  { unfold signable in *. cbn [Spec.signed_fields] in *.
    rewrite F3, F4. exact Hs2. }
  assert (Hr2' : replies w1' (sent w1') = Ok (JDict kvs2)).
  { rewrite F7. exact Hr2. }
  destruct (login_run u2 p2 i2 w1' kvs2 st2 t2 Hs2' Hr2' Hst2 Hz2 Ht2)
    as (salt2 & sig2 & Hrun2).
  rewrite Hrun2.
  eexists. eexists. split; [reflexivity|].
  cbn [self log logged with_self requested answered drew set_session
       set_username set_connected connected username session loop_step fst].
  repeat split.
  - rewrite HlL. unfold w1'. subst w1.
    cbn [log logged with_self requested answered drew].
    rewrite <- !app_assoc. reflexivity.
  - rewrite !threads_app, HtL.
    destruct (Z.gtb_spec i1 0); [|lia].
    cbn [threads flat_map app].
    destruct (i2 >? 0); reflexivity.
Qed.

Lemma second_login_starts_second_thread_witness :
  exists w2 new,
    login_user (lit "other") (lit "pw") 9
      (snd (run_loop 5 (repeat Tick 4) AtTest
              (snd (login_user (lit "apitest") (lit "idk") 5
                      (world_of api_test welcoming)))))
      = (Ok JNull, w2) /\
    connected (self w2) = true /\
    username (self w2) = lit "other" /\
    session (self w2) = JStr (lit "tok123") /\
    fst (loop_step 5 AtTest w2) = AtHeartbeat /\
    log w2 = log (world_of api_test welcoming) ++ new /\
    threads new = [5] ++ (if 9 >? 0 then [9] else []).
Proof.
  apply (second_login_starts_second_thread
           (lit "apitest") (lit "idk") (lit "other") (lit "pw") 5 9
           (world_of api_test welcoming) 4
           [(lit "status", JInt 0); (lit "session", JStr (lit "tok123"))]
           [(lit "status", JInt 0); (lit "session", JStr (lit "tok123"))]
           (JInt 0) (JInt 0) (JStr (lit "tok123")) (JStr (lit "tok123")));
    try reflexivity; lia.
Defined.

(** X14. After an accepted login, whatever number of steps the
    heartbeat thread it started has taken in the meantime, the next call
    presents the token the server sent: it is the session in the signed
    fields and in the request body, with the salt drawn at that call. *)
Theorem login_token_signs_next_call
    (u p : pystr) (i : Z) (c : call) (w : World) (n : nat)
    (kvs : list (pystr * json)) (st : json) (tok : pystr) :
  signable (self w) (LoginUser u p i) = true ->
  replies w (sent w) = Ok (JDict kvs) ->
  lookup (lit "status") kvs = Some st -> eq_zero st = true ->
  lookup (lit "session") kvs = Some (JStr tok) ->
  signable (set_session (JStr tok) (self w)) c = true ->
  0 < i \/ n = 0%nat ->
  exists w1 salt sig rest,
    login_user u p i w = (Ok JNull, w1) /\
    fst (_gen_salt (snd (run_loop i (repeat Tick n) AtTest w1))) = Ok salt /\
    log (snd (invoke c (snd (run_loop i (repeat Tick n) AtTest w1)))) =
      log (snd (run_loop i (repeat Tick n) AtTest w1)) ++
      Sign (Spec.signed_fields c (JStr tok) (JStr salt))
      :: Request (request_url (self w) (api_name c))
           (payload c (set_session (JStr tok) (self w)) salt sig)
      :: rest /\
    forallb quiet rest = true /\
    (Spec.authenticated c = true ->
     lookup (lit "session") (payload c (set_session (JStr tok) (self w)) salt sig)
     = Some (JStr tok)).
Proof.
  intros Hsig Hreply Hst Hz Htok Hc _.
  destruct (login_run u p i w kvs st (JStr tok) Hsig Hreply Hst Hz Htok)
    as (salt1 & sig1 & Hrun).
  match type of Hrun with
  | _ = (_, ?x) => set (w1 := x) in *
  end.
  exists w1.
  destruct (loop_frame i n AtTest w1)
    as (_ & F2 & F3 & F4 & F5 & F6 & _ & _ & _).
  set (w1' := snd (run_loop i (repeat Tick n) AtTest w1)) in *.
  assert (Hc1 : signable (self w1') c = true).
  { rewrite (signable_ext (self w1') (set_session (JStr tok) (self w)) c);
      [exact Hc|exact F3|exact F4|exact F2]. }
  destruct (signable_get_sign (self w1') c (1 + entropy w1' (draws w1') mod 100000) Hc1)
    as (key & strs & bytes & _ & _ & _ & Hs).
  pose proof (invoke_log c w1') as Hlog. cbv zeta in Hlog.
  rewrite Hs in Hlog. destruct Hlog as (rest & Hl & Hq).
  exists (Text.str_of_int (1 + entropy w1' (draws w1') mod 100000)),
         (Sha256.hexdigest bytes), rest.
  split; [exact Hrun|]. split; [reflexivity|]. split; [|split; [exact Hq|]].
  - rewrite Hl.
    rewrite (payload_ext (self w1') (set_session (JStr tok) (self w)) c _ _ F3 F2).
    rewrite (request_url_ext (self w1') (self w) (api_name c) F5 F6).
    rewrite F2. reflexivity.
  - intros Ha.
    exact (proj1 (proj2 (proj2 (proj2
             (payload_entries c (set_session (JStr tok) (self w))
                (Text.str_of_int (1 + entropy w1' (draws w1') mod 100000))
                (Sha256.hexdigest bytes))))) Ha).
Qed.

Lemma login_token_signs_next_call_witness :
  exists w1 salt sig rest,
    login_user (lit "apitest") (lit "idk") 5 (world_of api_test welcoming)
      = (Ok JNull, w1) /\
    fst (_gen_salt (snd (run_loop 5 (repeat Tick 4) AtTest w1))) = Ok salt /\
    log (snd (invoke (GetUserInfo (lit "alice"))
                (snd (run_loop 5 (repeat Tick 4) AtTest w1)))) =
      log (snd (run_loop 5 (repeat Tick 4) AtTest w1)) ++
      Sign (Spec.signed_fields (GetUserInfo (lit "alice")) (JStr (lit "tok123"))
              (JStr salt))
      :: Request (request_url (self (world_of api_test welcoming))
                    (api_name (GetUserInfo (lit "alice"))))
           (payload (GetUserInfo (lit "alice"))
              (set_session (JStr (lit "tok123"))
                 (self (world_of api_test welcoming))) salt sig)
      :: rest.
Proof.
  destruct (login_token_signs_next_call
              (lit "apitest") (lit "idk") 5 (GetUserInfo (lit "alice"))
              (world_of api_test welcoming) 4
              [(lit "status", JInt 0); (lit "session", JStr (lit "tok123"))]
              (JInt 0) (lit "tok123")
              eq_refl eq_refl eq_refl eq_refl eq_refl eq_refl
              (or_introl eq_refl))
    as (w1 & salt & sig & rest & H1 & H2 & H3 & _).
  exists w1, salt, sig, rest. repeat split; assumption.
Defined.

Lemma session_not_str_fields (c : call) (token salt : json) :
  Spec.authenticated c = true ->
  all_str [token] = false ->
  all_str (Spec.signed_fields c token salt) = false.
Proof.
  intros Ha Ht. destruct c; try discriminate;
    destruct token; try discriminate; reflexivity.
Qed.

(** X15. The token is stored as the server sent it, whatever its type:
    when it is not a string, every later authenticated call raises
    [TypeError] while signing, and sends nothing. *)
Theorem token_not_str_blocks_later_calls
    (u p : pystr) (i : Z) (c : call) (w : World)
    (kvs : list (pystr * json)) (st token : json) :
  signable (self w) (LoginUser u p i) = true ->
  replies w (sent w) = Ok (JDict kvs) ->
  lookup (lit "status") kvs = Some st -> eq_zero st = true ->
  lookup (lit "session") kvs = Some token ->
  all_str [token] = false ->
  Spec.authenticated c = true ->
  exists w1,
    login_user u p i w = (Ok JNull, w1) /\
    session (self w1) = token /\
    fst (invoke c w1) = Raise TypeError /\
    sent (snd (invoke c w1)) = sent w1 /\
    self (snd (invoke c w1)) = self w1.
Proof.
  intros Hsig Hreply Hst Hz Htok Hns Ha.
  destruct (login_run u p i w kvs st token Hsig Hreply Hst Hz Htok)
    as (salt1 & sig1 & Hrun).
  match type of Hrun with
  | _ = (_, ?x) => set (w1 := x) in *
  end.
  exists w1. split; [exact Hrun|].
  split; [reflexivity|].
  destruct (invoke_frame c w1)
    as (new & recs & _ & _ & _ & _ & _ & _ & _ & _ & _ & _ & _ & _ & Hs).
  assert (E : _get_sign (self w1)
                (Spec.signed_fields c (session (self w1))
                   (JStr (Text.str_of_int (1 + entropy w1 (draws w1) mod 100000))))
              = Raise TypeError).
  { unfold _get_sign. destruct (app_key (self w1)); [|reflexivity].
    rewrite sign_str_loop_non_str; [reflexivity|].
    apply session_not_str_fields; assumption. }
  rewrite E in Hs. destruct Hs as (H1 & _ & H3 & H4).
  repeat split; assumption.
Qed.

Lemma token_not_str_blocks_later_calls_witness :
  exists w1,
    login_user (lit "apitest") (lit "idk") 5
      (world_of api_test
         (fun _ => Ok (JDict [(lit "status", JInt 0); (lit "session", JInt 12)])))
      = (Ok JNull, w1) /\
    session (self w1) = JInt 12 /\
    fst (invoke GetDirectMessage w1) = Raise TypeError /\
    sent (snd (invoke GetDirectMessage w1)) = sent w1 /\
    self (snd (invoke GetDirectMessage w1)) = self w1.
Proof.
  apply (token_not_str_blocks_later_calls
           (lit "apitest") (lit "idk") 5 GetDirectMessage
           (world_of api_test
              (fun _ => Ok (JDict [(lit "status", JInt 0); (lit "session", JInt 12)])))
           [(lit "status", JInt 0); (lit "session", JInt 12)]
           (JInt 0) (JInt 12)); reflexivity.
Defined.

(* ================================================================== *)
(** ** More of the heartbeat loop *)

Lemma run_loop_app (i : Z) (s1 s2 : list turn) : forall pc w,
  run_loop i (s1 ++ s2) pc w =
  run_loop i s2 (fst (run_loop i s1 pc w)) (snd (run_loop i s1 pc w)).
Proof.
  induction s1 as [|t s1 IH]; intros pc w; [reflexivity|].
  destruct t as [|o]; cbn [app run_loop].
  - destruct (loop_step i pc w) as [pc' w']. apply IH.
  - apply IH.
Qed.

(** One whole cycle against a reply that reports a failure. *)
Lemma failing_cycle (i : Z) (w : World) :
  0 <= i <= SLEEP_MAX ->
  clock w (naps w) i = true ->
  hale (self w) = true ->
  failure_reply (replies w (sent w)) = true ->
  exists w',
    run_loop i [Tick; Tick; Tick] AtTest w = (AtTest, w') /\
    hale (self w') = true /\
    replies w' = replies w /\
    clock w' = clock w /\
    sent w' = S (sent w) /\
    length (exception_stack (self w')) = S (length (exception_stack (self w))).
Proof.
  intros Hi Hclock Hhale Hfail.
  assert (Hh := Hhale). apply andb_true_iff in Hh. destruct Hh as [Hon Hsig].
  unfold failure_reply in Hfail.
  destruct (replies w (sent w)) as [[| | | | | |kvs]|] eqn:Hreply; try discriminate.
  destruct (lookup (lit "status") kvs) as [st|] eqn:Hst; [|discriminate].
  destruct (lookup (lit "err_no") kvs) as [no|] eqn:Hno; [|discriminate].
  destruct (lookup (lit "err_info") kvs) as [info|] eqn:Hinfo; [|discriminate].
  apply negb_true_iff in Hfail.
  destruct (invoke_signed Heartbeat w Hsig) as (salt & sig & _ & _ & Hrun).
  change (invoke Heartbeat) with heartbeat in Hrun.
  rewrite Hreply in Hrun.
  rewrite (conclude_failure Heartbeat kvs st no info _ Hst Hfail Hno Hinfo) in Hrun.
  cbn [run_loop loop_step]. rewrite Hon. cbn [run_loop loop_step].
  rewrite Hrun. cbn [run_loop loop_step].
  rewrite sleep_ok; [|exact Hi|exact Hclock].
  eexists. split; [reflexivity|].
  cbn [self replies sent clock logged napped with_self requested answered drew
       push_exception exception_stack].
  split; [exact Hhale|]. split; [reflexivity|]. split; [reflexivity|].
  split; [reflexivity|].
  rewrite length_app. cbn. lia.
Qed.

(** X16. Failures do not stop the loop and pile up in the error
    history: with an interval that [time.sleep] takes (between 0 and
    [SLEEP_MAX], accepted by the platform's clock) and a server that
    refuses every heartbeat, the loop is back at its test after each
    cycle, with one more request sent and one more record kept, without
    bound. *)
Theorem loop_records_each_failure (heartbeat_interval : Z) (w : World) (n : nat) :
  0 <= heartbeat_interval <= SLEEP_MAX ->
  (forall k, clock w k heartbeat_interval = true) ->
  hale (self w) = true ->
  (forall k, failure_reply (replies w k) = true) ->
  fst (start_heartbeat heartbeat_interval (3 * n) w) = AtTest /\
  sent (snd (start_heartbeat heartbeat_interval (3 * n) w)) = (sent w + n)%nat /\
  length (exception_stack (self (snd (start_heartbeat heartbeat_interval (3 * n) w))))
    = (length (exception_stack (self w)) + n)%nat.
Proof.
  intros Hi. unfold start_heartbeat. revert w.
  induction n as [|n IH]; intros w Hclock Hhale Hfail.
  - cbn. repeat split; lia.
  - replace (3 * S n)%nat with (3 + 3 * n)%nat by lia.
    rewrite repeat_app, run_loop_app.
    destruct (failing_cycle heartbeat_interval w Hi (Hclock (naps w)) Hhale
                (Hfail (sent w)))
      as (w' & Hrun & Hh' & Hr' & Hc' & Hs' & Hx').
    change (repeat Tick 3) with [Tick; Tick; Tick]. rewrite Hrun.
    cbn [fst snd].
    destruct (IH w') as (H1 & H2 & H3).
    { intros k. rewrite Hc'. apply Hclock. }
    { exact Hh'. }
    { intros k. rewrite Hr'. apply Hfail. }
    rewrite H1, H2, H3, Hs', Hx'. repeat split; lia.
Qed.

Lemma loop_records_each_failure_witness :
  fst (start_heartbeat 5 (3 * 4) (world_of logged_in refusing)) = AtTest /\
  sent (snd (start_heartbeat 5 (3 * 4) (world_of logged_in refusing)))
    = (sent (world_of logged_in refusing) + 4)%nat /\
  length (exception_stack
            (self (snd (start_heartbeat 5 (3 * 4) (world_of logged_in refusing)))))
    = (length (exception_stack (self (world_of logged_in refusing))) + 4)%nat.
Proof.
  apply (loop_records_each_failure 5 (world_of logged_in refusing) 4);
    [unfold SLEEP_MAX; lia | intros k; reflexivity | reflexivity
    | intros k; reflexivity].
Defined.

Lemma ended_loop_keeps_world (i : Z) (n : nat) (pc : loop_point) (w : World) :
  running pc = false -> run_loop i (repeat Tick n) pc w = (pc, w).
Proof.
  intros Hpc. induction n as [|n IH]; [reflexivity|].
  cbn [repeat run_loop]. destruct pc; try discriminate; exact IH.
Qed.


(** X18. A request that fails in transport ends the heartbeat thread:
    the loop dies with the transport's exception after that one request
    and sends no more, while the object still says it is connected. *)
Theorem transport_failure_ends_loop
    (heartbeat_interval : Z) (w : World) (e : exn) (n : nat) :
  hale (self w) = true ->
  replies w (sent w) = Raise e ->
  fst (start_heartbeat heartbeat_interval (S (S n)) w) = Died e /\
  connected (self (snd (start_heartbeat heartbeat_interval (S (S n)) w))) = true /\
  exists new,
    log (snd (start_heartbeat heartbeat_interval (S (S n)) w)) = log w ++ new /\
    requests new = 1%nat.
Proof.
  intros Hhale Hreply.
  assert (Hh := Hhale). apply andb_true_iff in Hh. destruct Hh as [Hon Hsig].
  destruct (invoke_signed Heartbeat w Hsig) as (salt & sig & _ & _ & Hrun).
  change (invoke Heartbeat) with heartbeat in Hrun. rewrite Hreply in Hrun.
  unfold start_heartbeat. cbn [repeat run_loop loop_step].
  rewrite Hon. cbn [run_loop loop_step]. rewrite Hrun.
  cbn [run_loop loop_step].
  rewrite (ended_loop_keeps_world heartbeat_interval n (Died e)
             (requested Heartbeat salt sig w) eq_refl).
  split; [reflexivity|]. split; [exact Hon|].
  eexists. unfold requested. cbn [snd log answered logged drew].
  rewrite <- app_assoc. split; reflexivity.
Qed.

Lemma transport_failure_ends_loop_witness :
  fst (start_heartbeat 5 (S (S 7)) (world_of logged_in (fun _ => Raise URLError)))
    = Died URLError /\
  connected (self (snd (start_heartbeat 5 (S (S 7))
                          (world_of logged_in (fun _ => Raise URLError))))) = true.
Proof.
  destruct (transport_failure_ends_loop 5
              (world_of logged_in (fun _ => Raise URLError)) URLError 7
              eq_refl eq_refl) as (H1 & H2 & _).
  split; assumption.
Defined.

(** X22. Called with an interval that [time.sleep] refuses, the loop
    sends one heartbeat and dies in [time.sleep], never sending a second:
    with [ValueError] for a negative interval down to [- SLEEP_MAX], with
    [OverflowError] for an interval below [- SLEEP_MAX] or above
    [SLEEP_MAX]. *)
Theorem negative_interval_ends_loop
    (heartbeat_interval : Z) (w : World) (n : nat) :
  heartbeat_interval < 0 \/ SLEEP_MAX < heartbeat_interval ->
  hale (self w) = true ->
  well_formed_reply (replies w (sent w)) = true ->
  fst (start_heartbeat heartbeat_interval (3 + n) w)
    = Died (if (heartbeat_interval <? - SLEEP_MAX) || (SLEEP_MAX <? heartbeat_interval)
            then OverflowError else ValueError) /\
  exists new,
    log (snd (start_heartbeat heartbeat_interval (3 + n) w)) = log w ++ new /\
    pulse new = [Beat].
Proof.
  intros Hi Hhale Hreply.
  assert (Hon : connected (self w) = true)
    by (apply andb_true_iff in Hhale; tauto).
  destruct (heartbeat_hale w Hhale Hreply) as (w1 & new & Hrun & _ & _ & Hl & Hp).
  unfold start_heartbeat. cbn [Nat.add repeat run_loop loop_step].
  rewrite Hon. cbn [run_loop loop_step]. rewrite Hrun. cbn [run_loop loop_step].
  unfold sleep.
  destruct ((heartbeat_interval <? - SLEEP_MAX) || (SLEEP_MAX <? heartbeat_interval))
    eqn:Hout.
  - rewrite (ended_loop_keeps_world heartbeat_interval n (Died OverflowError) w1
               eq_refl).
    split; [reflexivity|]. exists new. split; [exact Hl|exact Hp].
  - apply orb_false_iff in Hout. destruct Hout as [_ Hhigh].
    apply Z.ltb_ge in Hhigh.
    destruct (Z.ltb_spec heartbeat_interval 0); [|lia].
    rewrite (ended_loop_keeps_world heartbeat_interval n (Died ValueError) w1
               eq_refl).
    split; [reflexivity|]. exists new. split; [exact Hl|exact Hp].
Qed.

Lemma negative_interval_ends_loop_witness :
  fst (start_heartbeat (-1) (3 + 4) (world_of logged_in accepting))
    = Died (if (-1 <? - SLEEP_MAX) || (SLEEP_MAX <? -1)
            then OverflowError else ValueError) /\
  fst (start_heartbeat (-10000000000) (3 + 4) (world_of logged_in accepting))
    = Died (if (-10000000000 <? - SLEEP_MAX) || (SLEEP_MAX <? -10000000000)
            then OverflowError else ValueError).
Proof.
  split.
  - apply (negative_interval_ends_loop (-1) (world_of logged_in accepting) 4);
      [left; lia | reflexivity | reflexivity].
  - apply (negative_interval_ends_loop (-10000000000)
             (world_of logged_in accepting) 4);
      [left; lia | reflexivity | reflexivity].
Defined.
